(** * esadmin: the Elasticsearch administration module, embedded in Rocq

    A shallow embedding of [esadmin/elasticsearchadmin.py] (Python 2):
    the [Connection] wrapper around one HTTP connection, the
    [TabularPrinter], and the free function [booleanise].

    Conventions of the embedding.
    - A Python byte string ([str]) is a [string]; a [unicode] object is the
      list of its code points.  JSON decoding yields [unicode] texts.
    - A raised exception is the [Raise] branch of [result]; code that
      mutates the connection or a stream threads that state explicitly.
    - Python values are the closed universe [pyval]: what [json.loads]
      produces (floating-point numbers excepted), plus byte strings.
    - [fmt_bytes] computes with floating-point logarithms and powers and
      is not embedded. *)

From Stdlib Require Import ZArith NArith Ascii DecimalString DecimalZ.
From stdpp Require Import gmap strings list.

Set Warnings "-register-all".

Local Open Scope Z_scope.

(** ** Exceptions and results *)

Inductive exn :=
| HttpError (msg : string)
| ValueError
| TypeError
| KeyError
| IndexError
| AttributeError
| UnicodeEncodeError
| Unmodelled.

Inductive result (A : Type) :=
| Ok (a : A)
| Raise (e : exn).
Arguments Ok {A} a.
Arguments Raise {A} e.

Global Instance result_ret : MRet result := @Ok.
Global Instance result_bind : MBind result := λ A B f r,
  match r with Ok a => f a | Raise e => Raise e end.
Global Instance result_fmap : FMap result := λ A B f r,
  match r with Ok a => Ok (f a) | Raise e => Raise e end.

Global Instance exn_eq_dec : EqDecision exn.
Proof. solve_decision. Defined.

(** [mapM] for [result], written out so that it computes by [simpl]. *)
Fixpoint traverse {A B} (f : A → result B) (l : list A) : result (list B) :=
  match l with
  | [] => Ok []
  | a :: l => b ← f a; bs ← traverse f l; Ok (b :: bs)
  end.

(** ** Text *)

Module Text.

Definition is_upper (c : ascii) : bool :=
  (65 <=? N_of_ascii c)%N && (N_of_ascii c <=? 90)%N.

Definition lower_char (c : ascii) : ascii :=
  if is_upper c then ascii_of_N (N_of_ascii c + 32) else c.

(** [s.lower()] on a byte string, C locale. *)
Fixpoint lower (s : string) : string :=
  match s with
  | EmptyString => EmptyString
  | String c s => String (lower_char c) (lower s)
  end.

Definition is_digit (c : ascii) : bool :=
  (48 <=? N_of_ascii c)%N && (N_of_ascii c <=? 57)%N.

(** C's [isspace]: blank, and the controls 9 to 13. *)
Definition is_space (c : ascii) : bool :=
  (N_of_ascii c =? 32)%N ||
  ((9 <=? N_of_ascii c)%N && (N_of_ascii c <=? 13)%N).

Fixpoint last_char (s : string) : option ascii :=
  match s with
  | EmptyString => None
  | String c EmptyString => Some c
  | String _ s => last_char s
  end.

Fixpoint mem (c : ascii) (s : string) : bool :=
  match s with
  | EmptyString => false
  | String d s => bool_decide (c = d) || mem c s
  end.

Fixpoint repeat (c : ascii) (n : nat) : string :=
  match n with
  | O => EmptyString
  | S n => String c (repeat c n)
  end.

Fixpoint concat (l : list string) : string :=
  match l with
  | [] => EmptyString
  | s :: l => s +:+ concat l
  end.

Fixpoint join (sep : string) (l : list string) : string :=
  match l with
  | [] => EmptyString
  | [s] => s
  | s :: l => s +:+ sep +:+ join sep l
  end.

(** [t] occurs in [s]. *)
Definition occurs_in (t s : string) : Prop :=
  ∃ pre post, s = pre +:+ t +:+ post.

(** The code points of a byte string all of whose bytes are ASCII. *)
Definition codes (s : string) : list N :=
  N_of_ascii <$> String.list_ascii_of_string s.

Definition is_ascii (s : string) : bool :=
  forallb (λ c, (N_of_ascii c <? 128)%N) (String.list_ascii_of_string s).

(** [u.encode('ascii')]: what [str(u)] does to a unicode object. *)
Definition encode_ascii (u : list N) : result string :=
  if forallb (λ n, (n <? 128)%N) u
  then Ok (String.string_of_list_ascii (ascii_of_N <$> u))
  else Raise UnicodeEncodeError.

Definition hex_digit (n : N) : ascii :=
  if (n <? 10)%N then ascii_of_N (48 + n) else ascii_of_N (87 + n).

(** [n] in lowercase hexadecimal, on exactly [w] digits. *)
Fixpoint hex (w : nat) (n : N) : string :=
  match w with
  | O => EmptyString
  | S w => hex w (n / 16) +:+ String (hex_digit (n mod 16)) EmptyString
  end.

(** [str(z)] for an integer. *)
Definition dec (z : Z) : string := NilZero.string_of_int (Z.to_int z).

End Text.

(** ** Python values *)

Inductive pyval :=
| PNone
| PBool (b : bool)
| PInt (z : Z)
| PLong (z : Z)
| PStr (s : string)
| PUnicode (u : list N)
| PList (l : list pyval)
| PDict (d : list (list N * pyval)).

(** The literal ["..."] of the source, and [u"..."] as the decoder returns it. *)
Definition ustr (s : string) : pyval := PUnicode (Text.codes s).

Module Repr.
Import Text.

(** The quote [repr] picks: a double quote only when the text holds a
    single quote and no double quote. *)
Definition single_quote : ascii := ascii_of_nat 39.
Definition double_quote : ascii := ascii_of_nat 34.

Definition quote_for (has_single has_double : bool) : ascii :=
  if has_single && negb has_double then double_quote else single_quote.

Definition backslash : ascii := "\"%char.

Definition escape_byte (q : ascii) (c : ascii) : string :=
  let n := N_of_ascii c in
  if bool_decide (c = q) || bool_decide (c = backslash)
  then String backslash (String c EmptyString)
  else if (n =? 9)%N then "\t"
  else if (n =? 10)%N then "\n"
  else if (n =? 13)%N then "\r"
  else if (n <? 32)%N || (127 <=? n)%N then "\x" +:+ hex 2 n
  else String c EmptyString.

(** [repr(s)] for a byte string. *)
Definition repr_str (s : string) : string :=
  let q := quote_for (mem single_quote s) (mem double_quote s) in
  String q (concat (escape_byte q <$> String.list_ascii_of_string s))
    +:+ String q EmptyString.

Definition escape_code (q : ascii) (n : N) : string :=
  if (65536 <=? n)%N then "\U" +:+ hex 8 n
  else if (256 <=? n)%N then "\u" +:+ hex 4 n
  else escape_byte q (ascii_of_N n).

(** [repr(u)] for a unicode object. *)
Definition repr_unicode (u : list N) : string :=
  let q := quote_for (bool_decide (39%N ∈ u)) (bool_decide (34%N ∈ u)) in
  String "u" (String q (concat (escape_code q <$> u)))
    +:+ String q EmptyString.

(** [repr(v)]; a mapping is rendered in the order of its entries. *)
Fixpoint py_repr (v : pyval) : string :=
  match v with
  | PNone => "None"
  | PBool true => "True"
  | PBool false => "False"
  | PInt z => dec z
  | PLong z => dec z +:+ "L"
  | PStr s => repr_str s
  | PUnicode u => repr_unicode u
  | PList l => "[" +:+ join ", " (map py_repr l) +:+ "]"
  | PDict d =>
      "{" +:+ join ", "
        (map (λ kv, repr_unicode (fst kv) +:+ ": " +:+ py_repr (snd kv)) d)
      +:+ "}"
  end.

End Repr.
Export Repr.

(** [str(v)]: the only rendering that can fail is the ASCII encoding of a
    unicode object. *)
Definition py_str (v : pyval) : result string :=
  match v with
  | PStr s => Ok s
  | PUnicode u => Text.encode_ascii u
  | PLong z => Ok (Text.dec z)
  | _ => Ok (py_repr v)
  end.

(** ** booleanise *)

Definition booleanise (b : pyval) : result pyval :=
  s ← py_str b;
  if bool_decide (Text.lower s = "true") then Ok (PBool true)
  else if bool_decide (Text.lower s = "false") then Ok (PBool false)
  else Ok b.

(** ** The [%] operator on byte strings

    [py_format fmt args] is [fmt % args] for a byte-string format, [args]
    being the items of the right operand (one item when it is not a
    tuple).  The format is read one character at a time; [stage] records
    how far into a conversion specifier the reader is. *)

Module Format.
Import Text.

Inductive stage :=
| Lit
| Start
| Flags (ljust other : bool)
| Width (ljust other : bool) (w : N)
| PrecStart (ljust other : bool) (w : N)
| Prec (ljust other : bool) (w : N) (p : N)
| Conv (ljust other : bool) (w : N) (p : option N).

Definition digit_val (c : ascii) : N := N_of_ascii c - 48.

(** Pad [s] with blanks to [w] characters. *)
Definition pad (ljust : bool) (w : N) (s : string) : string :=
  let fill := repeat " "%char (N.to_nat w - String.length s) in
  if ljust then s +:+ fill else fill +:+ s.

Definition truncate (p : option N) (s : string) : string :=
  match p with
  | None => s
  | Some p => String.substring 0 (N.to_nat p) s
  end.

(** The conversion character [c] closes a specifier.  Every conversion but
    [%%] takes the next argument, and fails with [TypeError] when none is
    left, before the character is even looked at. *)
Definition convert (ljust other : bool) (w : N) (p : option N) (c : ascii)
    (args : list pyval) : result (string * list pyval) :=
  if (c =? "%")%char then Ok (pad ljust w "%", args)
  else match args with
  | [] => Raise TypeError
  | a :: args =>
      if (c =? "s")%char then
        match a with
        | PUnicode _ => Raise Unmodelled
        | _ => s ← py_str a; Ok (pad ljust w (truncate p s), args)
        end
      else if (c =? "r")%char then
        Ok (pad ljust w (truncate p (py_repr a)), args)
      else if (c =? "d")%char || (c =? "i")%char then
        match a with
        | PInt z | PLong z =>
            if other || bool_decide (p ≠ None) then Raise Unmodelled
            else Ok (pad ljust w (dec z), args)
        | PBool b =>
            if other || bool_decide (p ≠ None) then Raise Unmodelled
            else Ok (pad ljust w (dec (Z.b2z b)), args)
        | _ => Raise TypeError
        end
      else Raise Unmodelled
  end.

Definition is_length_modifier (c : ascii) : bool :=
  (c =? "h")%char || (c =? "l")%char || (c =? "L")%char.

(** A [*] width or precision takes an argument. *)
Definition star (args : list pyval) : result (string * stage * list pyval) :=
  match args with
  | [] => Raise TypeError
  | _ => Raise Unmodelled
  end.

Definition closing (ljust other : bool) (w : N) (p : option N) (c : ascii)
    (args : list pyval) : result (string * stage * list pyval) :=
  if is_length_modifier c then Ok (EmptyString, Conv ljust other w p, args)
  else '(s, args) ← convert ljust other w p c args; Ok (s, Lit, args).

Definition step (st : stage) (c : ascii) (args : list pyval)
    : result (string * stage * list pyval) :=
  let flags ljust other :=
    if (c =? "-")%char then Ok (EmptyString, Flags true other, args)
    else if (c =? "+")%char || (c =? " ")%char || (c =? "#")%char
            || (c =? "0")%char
    then Ok (EmptyString, Flags ljust true, args)
    else if (c =? "*")%char then star args
    else if is_digit c
    then Ok (EmptyString, Width ljust other (digit_val c), args)
    else if (c =? ".")%char then Ok (EmptyString, PrecStart ljust other 0%N, args)
    else closing ljust other 0%N None c args in
  match st with
  | Lit =>
      if (c =? "%")%char then Ok (EmptyString, Start, args)
      else Ok (String c EmptyString, Lit, args)
  | Start =>
      if (c =? "(")%char then Raise TypeError else flags false false
  | Flags ljust other => flags ljust other
  | Width ljust other w =>
      if is_digit c
      then Ok (EmptyString, Width ljust other (10 * w + digit_val c)%N, args)
      else if (c =? ".")%char then Ok (EmptyString, PrecStart ljust other w, args)
      else closing ljust other w None c args
  | PrecStart ljust other w =>
      if (c =? "*")%char then star args
      else if is_digit c
      then Ok (EmptyString, Prec ljust other w (digit_val c), args)
      else closing ljust other w (Some 0%N) c args
  | Prec ljust other w p =>
      if is_digit c
      then Ok (EmptyString, Prec ljust other w (10 * p + digit_val c)%N, args)
      else closing ljust other w (Some p) c args
  | Conv ljust other w p =>
      '(s, args) ← convert ljust other w p c args; Ok (s, Lit, args)
  end.

(** A format that ends inside a specifier is a [ValueError]; arguments
    left over at the end are a [TypeError]. *)
Fixpoint format_go (st : stage) (fmt : string) (args : list pyval)
    : result string :=
  match fmt with
  | EmptyString =>
      match st, args with
      | Lit, [] => Ok EmptyString
      | Lit, _ => Raise TypeError
      | _, _ => Raise ValueError
      end
  | String c fmt =>
      match step st c args with
      | Ok (piece, st, args) =>
          match format_go st fmt args with
          | Ok rest => Ok (piece +:+ rest)
          | Raise e => Raise e
          end
      | Raise e => Raise e
      end
  end.

Definition py_format (fmt : string) (args : list pyval) : result string :=
  format_go Lit fmt args.

End Format.
Export Format.

(** ** Hashing, equality and subscripting *)

(** Two hashable values are equal for [==], and collide in a [set] or as
    [dict] keys, exactly when they have the same [hkey]: [True == 1], and
    an ASCII byte string equals the unicode object with the same text. *)
Inductive hkey :=
| KNone
| KNum (z : Z)
| KText (u : list N)
| KBytes (s : string).

Global Instance hkey_eq_dec : EqDecision hkey.
Proof. solve_decision. Defined.

Global Instance hkey_countable : Countable hkey.
Proof.
  refine (inj_countable'
    (λ k, match k with
          | KNone => inl ()
          | KNum z => inr (inl z)
          | KText u => inr (inr (inl u))
          | KBytes s => inr (inr (inr s))
          end)
    (λ x, match x with
          | inl _ => KNone
          | inr (inl z) => KNum z
          | inr (inr (inl u)) => KText u
          | inr (inr (inr s)) => KBytes s
          end) _).
  by intros [].
Defined.

(** [hash(v)] succeeds; lists and mappings are unhashable. *)
Definition py_hash_key (v : pyval) : result hkey :=
  match v with
  | PNone => Ok KNone
  | PBool b => Ok (KNum (Z.b2z b))
  | PInt z | PLong z => Ok (KNum z)
  | PStr s => Ok (if Text.is_ascii s then KText (Text.codes s) else KBytes s)
  | PUnicode u => Ok (KText u)
  | PList _ | PDict _ => Raise TypeError
  end.

(** [v == True] and [v == False]. *)
Definition py_eq_bool (v : pyval) (b : bool) : bool :=
  match v with
  | PBool c => bool_decide (c = b)
  | PInt z | PLong z => bool_decide (z = Z.b2z b)
  | _ => false
  end.

(** The first binding of a key in a mapping. *)
Fixpoint dict_lookup (k : list N) (d : list (list N * pyval)) : option pyval :=
  match d with
  | [] => None
  | (k', v) :: d => if bool_decide (k' = k) then Some v else dict_lookup k d
  end.

(** [seq[i]] on a sequence, negative indices counting from the end. *)
Definition seq_index {A} (l : list A) (i : Z) : result A :=
  let j := if i <? 0 then i + Z.of_nat (length l) else i in
  if j <? 0 then Raise IndexError
  else match l !! Z.to_nat j with
       | Some a => Ok a
       | None => Raise IndexError
       end.

Definition as_index (k : pyval) : option Z :=
  match k with
  | PInt z | PLong z => Some z
  | PBool b => Some (Z.b2z b)
  | _ => None
  end.

(** [v[k]]. *)
Definition py_getitem (v k : pyval) : result pyval :=
  match v with
  | PDict d =>
      h ← py_hash_key k;
      match h with
      | KText u =>
          match dict_lookup u d with
          | Some x => Ok x
          | None => Raise KeyError
          end
      | _ => Raise KeyError
      end
  | PList l =>
      match as_index k with
      | Some i => seq_index l i
      | None => Raise TypeError
      end
  | PStr s =>
      match as_index k with
      | Some i =>
          c ← seq_index (String.list_ascii_of_string s) i;
          Ok (PStr (String c EmptyString))
      | None => Raise TypeError
      end
  | PUnicode u =>
      match as_index k with
      | Some i => c ← seq_index u i; Ok (PUnicode [c])
      | None => Raise TypeError
      end
  | _ => Raise TypeError
  end.

(** [v[k]] for a key written as a literal in the source. *)
Definition getitem (v : pyval) (k : string) : result pyval :=
  py_getitem v (PStr k).

Fixpoint starts_with {A} `{EqDecision A} (t l : list A) : bool :=
  match t, l with
  | [], _ => true
  | _ :: _, [] => false
  | a :: t, b :: l => bool_decide (a = b) && starts_with t l
  end.

Fixpoint has_infix {A} `{EqDecision A} (t l : list A) : bool :=
  starts_with t l ||
  match l with
  | [] => false
  | _ :: l => has_infix t l
  end.

(** [k in v] for an ASCII literal [k]: a key of a mapping, an item of a
    list, a substring of a text. *)
Definition contains (k : string) (v : pyval) : result bool :=
  match v with
  | PDict d => Ok (bool_decide (is_Some (dict_lookup (Text.codes k) d)))
  | PList l =>
      Ok (existsb (λ x, match x with
                        | PStr s => bool_decide (s = k)
                        | PUnicode u => bool_decide (u = Text.codes k)
                        | _ => false
                        end) l)
  | PStr s => Ok (has_infix (Text.codes k) (Text.codes s))
  | PUnicode u => Ok (has_infix (Text.codes k) u)
  | _ => Raise TypeError
  end.

(** What [for x in v] visits. *)
Definition iterate (v : pyval) : result (list pyval) :=
  match v with
  | PDict d => Ok ((λ kv, PUnicode (fst kv)) <$> d)
  | PList l => Ok l
  | PStr s => Ok ((λ c, PStr (String c EmptyString)) <$> String.list_ascii_of_string s)
  | PUnicode u => Ok ((λ c, PUnicode [c]) <$> u)
  | _ => Raise TypeError
  end.

(** [v.get(k, default)]: only mappings have the method. *)
Definition dict_get (v : pyval) (k : string) (default : pyval) : result pyval :=
  match v with
  | PDict d => Ok (from_option id default (dict_lookup (Text.codes k) d))
  | _ => Raise AttributeError
  end.

Fixpoint foldM {A B} (f : A → B → result A) (a : A) (l : list B) : result A :=
  match l with
  | [] => Ok a
  | x :: l => a' ← f a x; foldM f a' l
  end.

(** ** Methods: state and exceptions

    A method of an object in state [S] may raise and may change the
    object; what it changed before raising stays changed. *)

Definition stateful (S A : Type) : Type := S → result A * S.

Global Instance stateful_ret {S} : MRet (stateful S) := λ A a s, (Ok a, s).
Global Instance stateful_bind {S} : MBind (stateful S) := λ A B f m s,
  match m s with
  | (Ok a, s) => f a s
  | (Raise e, s) => (Raise e, s)
  end.

Definition raise {S A} (e : exn) : stateful S A := λ s, (Raise e, s).
Definition lift {S A} (r : result A) : stateful S A := λ s, (r, s).
Definition update {S} (f : S → S) : stateful S () := λ s, (Ok (), f s).
Definition inspect {S A} (f : S → A) : stateful S A := λ s, (Ok (f s), s).

(** A [for] loop whose body is a method. *)
Fixpoint for_each {S A} (body : A → stateful S ()) (l : list A)
    : stateful S () :=
  match l with
  | [] => mret ()
  | x :: l => _ ← body x; for_each body l
  end.

(** ** Connection: the parts that do not touch the wire *)

Module Version.

(** [re.sub(r'[^0-9.-]', '', text)] needs a text. *)
Definition text_of (v : pyval) : result (list N) :=
  match v with
  | PStr s => Ok (Text.codes s)
  | PUnicode u => Ok u
  | _ => Raise TypeError
  end.

Definition is_digit_code (n : N) : bool := (48 <=? n)%N && (n <=? 57)%N.

(** The separators: [.] and [-]. *)
Definition is_separator (n : N) : bool := (n =? 46)%N || (n =? 45)%N.

Definition sanitize (u : list N) : list N :=
  filter (λ n, is_digit_code n || is_separator n) u.

(** [re.split(r'[.-]', u)]: the pieces between separators, empty ones kept. *)
Fixpoint split (u : list N) : list (list N) :=
  match u with
  | [] => [[]]
  | n :: u =>
      if is_separator n then [] :: split u
      else match split u with
           | piece :: pieces => (n :: piece) :: pieces
           | [] => [[n]]
           end
  end.

Fixpoint digits_value (acc : Z) (u : list N) : result Z :=
  match u with
  | [] => Ok acc
  | n :: u =>
      if is_digit_code n then digits_value (10 * acc + Z.of_N (n - 48)) u
      else Raise Unmodelled
  end.

(** [int(piece)] on a piece of a sanitized text, which holds digits only;
    the empty piece is not a number. *)
Definition int_of (u : list N) : result Z :=
  match u with
  | [] => Raise ValueError
  | _ => digits_value 0 u
  end.

Definition parse (number : pyval) : result (list Z) :=
  u ← text_of number;
  traverse int_of (split (sanitize u)).

(** [a < b] on tuples of integers. *)
Fixpoint tuple_lt (a b : list Z) : bool :=
  match a, b with
  | _, [] => false
  | [], _ :: _ => true
  | x :: a, y :: b =>
      if x <? y then true else if y <? x then false else tuple_lt a b
  end.

Definition tuple_ge (a b : list Z) : bool := negb (tuple_lt a b).

End Version.

(** [nodes.keys()[0]]. *)
Definition first_key (nodes : pyval) : result pyval :=
  match nodes with
  | PDict [] => Raise IndexError
  | PDict ((k, _) :: _) => Ok (PUnicode k)
  | _ => Raise AttributeError
  end.

(** One round of the loop of [get_index_translog_disable_flush]. *)
Definition translog_entry (settings : pyval) (disabled : gmap hkey pyval)
    (idx : pyval) : result (gmap hkey pyval) :=
  entry ← py_getitem settings idx;
  idx_settings ← getitem entry "settings";
  v ← dict_get idx_settings "index.translog.disable_flush" (PStr "unknown");
  b ← booleanise v;
  k ← py_hash_key idx;
  Ok (<[k := b]> disabled).

(** [get_index_translog_disable_flush], from the decoded [/_settings]. *)
Definition index_translog_of (settings : pyval) : result (gmap hkey pyval) :=
  idxs ← iterate settings;
  foldM (translog_entry settings) ∅ idxs.

(** [set(disabled.values())]. *)
Definition value_set (disabled : gmap hkey pyval) : result (gset hkey) :=
  keys ← traverse py_hash_key (map_to_list disabled).*2;
  Ok (list_to_set keys).

(** [flushing_disabled], from the index map. *)
Definition flushing_of (disabled : gmap hkey pyval) : result string :=
  states ← value_set disabled;
  if bool_decide (1 < size states)%nat && bool_decide (KNum 1 ∈ states)
  then Ok "some"
  else if bool_decide (size states = 1%nat) then
    if bool_decide (KNum 1 ∈ states) then Ok "disabled" else Ok "enabled"
  else Ok "unknown".

Definition allocation_key : string :=
  "cluster.routing.allocation.disable_allocation".

(** One round of the loop of [allocator_disabled], over the scope [i]. *)
Definition allocator_scope (settings : pyval) (state : string) (i : string)
    : result string :=
  scope ← getitem settings i;
  present ← contains allocation_key scope;
  if present : bool then
    v0 ← getitem scope allocation_key;
    v ← booleanise v0;
    if py_eq_bool v true then Ok "disabled"
    else if py_eq_bool v false then Ok "enabled"
    else Ok state
  else Ok state.

(** [allocator_disabled], from the decoded [/_cluster/settings]. *)
Definition allocator_of (settings : pyval) : result string :=
  foldM (allocator_scope settings) "unknown" ["persistent"; "transient"].

(** ** Connection: requests *)

Record request_sent := Request {
  rq_method : string;
  rq_path : string;
  rq_body : option pyval
}.

Record response := Response {
  status : Z;
  body : string
}.

(** The connection: the cached version, and as ghost state the requests
    put on the wire and the records given to [logger.error], oldest first. *)
Record connection := Connection {
  es_version : option (list Z);
  sent : list request_sent;
  logged : list string
}.

(** [Connection(host, port)]. *)
Definition fresh : connection := Connection None [] [].

Abbreviation conn := (stateful connection).

Definition set_version (t : list Z) : conn () :=
  update (λ c, Connection (Some t) (sent c) (logged c)).
Definition log_error (msg : string) : conn () :=
  update (λ c, Connection (es_version c) (sent c) (logged c ++ [msg])).

Section Connection.

(** [json.loads] on a byte string: the decoded value, or [None] for the
    [ValueError] it raises. *)
Variable json_loads : string → option pyval.

(** The node at the other end: its answer to a request, given the
    requests it has seen before. *)
Variable server : list request_sent → request_sent → response.

(** [self.conn.request(...)] followed by [self.conn.getresponse()]. *)
Definition exchange (rq : request_sent) : conn response := λ c,
  (Ok (server (sent c) rq),
   Connection (es_version c) (sent c ++ [rq]) (logged c)).

Definition request (method path : string) (data : pyval) : conn pyval :=
  resp ← exchange (Request method path
                     (match data with PNone => None | _ => Some data end));
  if bool_decide (status resp ≠ 200) then
    msg ← lift (py_format "Expected HTTP 200 - got HTTP %d: %s %s (data: %r)"
                  [PInt (status resp); PStr method; PStr path; data]);
    raise (HttpError msg)
  else
    let resp_body := body resp in
    match json_loads resp_body with
    | Some resp_payload => mret resp_payload
    | None =>
        if bool_decide (String.length resp_body = 0%nat) then
          match json_loads "{}" with
          | Some resp_payload => mret resp_payload
          | None => raise ValueError
          end
        else
          msg ← lift (py_format "Failed to parse JSON in response: %r"
                        [PStr resp_body]);
          _ ← log_error msg;
          raise ValueError
    end.

Definition get (path : string) : conn pyval := request "GET" path PNone.
Definition put (path : string) (data : pyval) : conn pyval :=
  request "PUT" path data.
Definition post (path : string) (data : pyval) : conn pyval :=
  request "POST" path data.
Definition delete (path : string) (data : pyval) : conn pyval :=
  request "DELETE" path data.

(** The first statement of [my_node_id]: the version tuple, computed from
    [GET /] unless [self.es_version] holds it already. *)
Definition version : conn (list Z) :=
  cached ← inspect es_version;
  match cached with
  | Some t => mret t
  | None =>
      root ← get "/";
      v ← lift (getitem root "version");
      number ← lift (getitem v "number");
      t ← lift (Version.parse number);
      _ ← set_version t;
      mret t
  end.

Definition my_node_id : conn pyval :=
  t ← version;
  info ← (if Version.tuple_ge t [1; 0; 0] then get "/_nodes/_local"
          else get "/_cluster/nodes/_local");
  nodes ← lift (getitem info "nodes");
  lift (first_key nodes).

Definition get_index_translog_disable_flush : conn (gmap hkey pyval) :=
  settings ← get "/_settings";
  lift (index_translog_of settings).

Definition allocator_disabled : conn string :=
  settings ← get "/_cluster/settings";
  lift (allocator_of settings).

Definition flushing_disabled : conn string :=
  disabled ← get_index_translog_disable_flush;
  lift (flushing_of disabled).

(** The connection after [n] calls of [my_node_id], whatever each call
    returned or raised. *)
Definition after_calls (n : nat) (c : connection) : connection :=
  Nat.iter n (λ c, snd (my_node_id c)) c.

End Connection.

(** The requests of a trace that went to the root endpoint. *)
Definition root_fetches (trace : list request_sent) : nat :=
  length (filter (λ rq, rq_path rq = "/") trace).

(** A decoder for the JSON texts of the examples below: the empty object
    and array and the three literals. *)
Definition json_literal (s : string) : option pyval :=
  if bool_decide (s = "{}") then Some (PDict [])
  else if bool_decide (s = "[]") then Some (PList [])
  else if bool_decide (s = "null") then Some PNone
  else if bool_decide (s = "true") then Some (PBool true)
  else if bool_decide (s = "false") then Some (PBool false)
  else None.

(** ** TabularPrinter *)

Module TabularPrinter.

Definition DEFAULT_MARGIN : string := Text.repeat " "%char 4.
Definition DEFAULT_SEPARATOR : string := "  ".

(** A column width is an integer; [None] is the padding of
    [nontruncating_zip]. *)
Record printer := Printer {
  margin : string;
  separator : string;
  _column_widths : list (option nat);
  _max_columns : nat;
  _row_count : nat;
  _rows : list (list string)
}.

(** [__init__]. *)
Definition init (margin separator : pyval) : result printer :=
  m ← py_str margin;
  s ← py_str separator;
  Ok (Printer m s [] 0 0 []).

(** [TabularPrinter()]. *)
Definition new : printer :=
  Printer DEFAULT_MARGIN DEFAULT_SEPARATOR [] 0 0 [].

Definition row_count (tp : printer) : nat := _row_count tp.

(** The [while True] loop of [nontruncating_zip], [tups] being the tuples
    collected so far and [none] the value [None] among the items; the
    result is [None] when [fuel] rounds were not enough to reach the
    [break]. *)
Fixpoint zip_loop {A} (none : A) (fuel : nat) (seqs : list (list A))
    (idx : nat) (tups : list (list A)) : option (list (list A)) :=
  match fuel with
  | O => None
  | S fuel =>
      let tup := map (λ seq : list A, default none (seq !! idx)) seqs in
      let empties :=
        length (filter (λ seq : list A, seq !! idx = None) seqs) in
      if bool_decide (empties = length seqs) then Some tups
      else zip_loop none fuel seqs (S idx) (tups ++ [tup])
  end.

Definition longest {A} (seqs : list (list A)) : nat :=
  foldr (λ seq n, Nat.max (length seq) n) 0%nat seqs.

(** The loop leaves after one round more than the longest sequence has
    items ([zip_loop_enough] below). *)
Definition nontruncating_zip {A} (none : A) (seqs : list (list A))
    : option (list (list A)) :=
  zip_loop none (S (longest seqs)) seqs 0 [].

(** The tuple of index [idx]: the item of each sequence, or [none]. *)
Definition zip_column {A} (none : A) (seqs : list (list A)) (idx : nat)
    : list A :=
  map (λ seq : list A, default none (seq !! idx)) seqs.

(** [max(x, y)]: [None] sorts below every integer, and of two equal
    items the first is returned. *)
Definition py_max (x y : option nat) : option nat :=
  match x, y with
  | Some a, Some b => if (a <? b)%nat then Some b else Some a
  | Some a, None => Some a
  | None, Some b => Some b
  | None, None => None
  end.

(** [lambda (x, y): max(x, y)] unpacks a pair. *)
Definition max_of_pair (tup : list (option nat)) : result (option nat) :=
  match tup with
  | [x; y] => Ok (py_max x y)
  | _ => Raise ValueError
  end.

Definition row (columns : list pyval) : stateful printer () :=
  columns ← lift (traverse py_str columns);
  _ ← update (λ tp, Printer (margin tp) (separator tp) (_column_widths tp)
                      (_max_columns tp) (_row_count tp)
                      (_rows tp ++ [columns]));
  _ ← update (λ tp, Printer (margin tp) (separator tp) (_column_widths tp)
                      (_max_columns tp) (S (_row_count tp)) (_rows tp));
  let column_widths := map (λ c, Some (String.length c)) columns in
  old_widths ← inspect _column_widths;
  zipped ← lift (match nontruncating_zip None [old_widths; column_widths] with
                 | Some tups => Ok tups
                 | None => Raise Unmodelled
                 end);
  widths ← lift (traverse max_of_pair zipped);
  _ ← update (λ tp, Printer (margin tp) (separator tp) widths
                      (_max_columns tp) (_row_count tp) (_rows tp));
  update (λ tp, Printer (margin tp) (separator tp) (_column_widths tp)
                  (Nat.max (_max_columns tp) (length columns))
                  (_row_count tp) (_rows tp)).

(** The printer after one call of [row] per item of [calls], in order, the
    item being the columns passed; a call that raises is not repeated. *)
Definition rows_added (calls : list (list pyval)) (tp : printer) : printer :=
  foldl (λ tp columns, snd (row columns tp)) tp calls.

(** An output stream: the text written so far, the [softspace] attribute
    that the [print] statement maintains, and whether [write] clears that
    attribute, as the [write] of a file object does. *)
Record stream := Stream {
  written : string;
  softspace : bool;
  write_clears_softspace : bool
}.

Definition newline : string := String (ascii_of_nat 10) EmptyString.

(** [stream.write(s)]. *)
Definition write (s : string) : stateful stream () :=
  update (λ st, Stream (written st +:+ s)
                  (if write_clears_softspace st then false else softspace st)
                  (write_clears_softspace st)).

(** After [print >>stream, s,] a space is owed to the next item, unless
    [s] ends in whitespace other than a blank. *)
Definition owes_space (s : string) : bool :=
  match Text.last_char s with
  | None => true
  | Some c => negb (Text.is_space c) || (c =? " ")%char
  end.

(** [print >>stream, s,] for a byte string [s]. *)
Definition print_item (s : string) : stateful stream () :=
  update (λ st, Stream (written st +:+ (if softspace st then " " else "") +:+ s)
                  (owes_space s) (write_clears_softspace st)).

(** [print >>stream]. *)
Definition print_newline : stateful stream () :=
  update (λ st, Stream (written st +:+ newline) false
                  (write_clears_softspace st)).

Definition width_value (w : option nat) : pyval :=
  match w with
  | Some n => PInt (Z.of_nat n)
  | None => PNone
  end.

(** The body of the inner loop of [output]. *)
Definition output_column (tp : printer) (column_idx : nat) (column : string)
    : stateful stream () :=
  w ← lift (match _column_widths tp !! column_idx with
            | Some w => Ok w
            | None => Raise IndexError
            end);
  fmt_string ← lift (py_format "%%-%ds%s" [width_value w; PStr (separator tp)]);
  item ← lift (py_format fmt_string [PStr column]);
  print_item item.

Fixpoint output_columns (tp : printer) (column_idx : nat) (row : list string)
    : stateful stream () :=
  match row with
  | [] => mret ()
  | column :: row =>
      _ ← output_column tp column_idx column;
      output_columns tp (S column_idx) row
  end.

Definition output_row (tp : printer) (row : list string) : stateful stream () :=
  _ ← write (margin tp);
  _ ← output_columns tp 0 row;
  print_newline.

Definition output (tp : printer) : stateful stream () :=
  for_each (output_row tp) (_rows tp).

End TabularPrinter.

(** ** Tables as text

    What a table looks like, said without the printer: the width of a
    column is the longest text seen in it, and a line is built from the
    cells of its row. *)

Module Table.
Import TabularPrinter Format.

(** The length of the text of column [i] in a row; a row without the
    column counts for nothing. *)
Definition cell_length (r : list string) (i : nat) : nat :=
  from_option String.length 0%nat (r !! i).

Definition final_width (rows : list (list string)) (i : nat) : nat :=
  max_list_with (λ r, cell_length r i) rows.

Definition columns_seen (rows : list (list string)) : nat :=
  max_list_with length rows.

(** A column of a row, left-justified to the width of its column, and the
    separator. *)
Definition cell (sep : string) (rows : list (list string)) (i : nat)
    (column : string) : string :=
  pad true (N.of_nat (final_width rows i)) column +:+ sep.










(** The rows ["alice", "30"] and ["bob"]. *)
Definition sample_calls : list (list pyval) :=
  [[PStr "alice"; PStr "30"]; [PStr "bob"]].

Definition sample_rows : list (list string) := [["alice"; "30"]; ["bob"]].

(** The widths [row] leaves: position by position the larger of the old
    width and the new length, a missing one being [None]. *)
Definition merged (a b : list (option nat)) : list (option nat) :=
  map (λ idx, py_max (default None (a !! idx)) (default None (b !! idx)))
    (seq 0 (Nat.max (length a) (length b))).

(** The printer's bookkeeping agrees with its rows. *)
Definition tidy (tp : printer) : Prop :=
  _column_widths tp =
    map (λ i, Some (final_width (_rows tp) i))
      (seq 0 (columns_seen (_rows tp))) ∧
  _max_columns tp = columns_seen (_rows tp) ∧
  _row_count tp = length (_rows tp).

End Table.

(** ** Vocabulary of the statements *)

(** The request [request] puts on the wire: no body when [data] is
    [None]. *)
Definition wire (method path : string) (data : pyval) : request_sent :=
  Request method path (match data with PNone => None | _ => Some data end).

(** The message of the [HttpError] for a response of status [st]. *)
Definition http_error_message (st : Z) (method path : string) (data : pyval)
    : string :=
  "Expected HTTP 200 - got HTTP " +:+ Text.dec st +:+ ": " +:+ method
    +:+ " " +:+ path +:+ " (data: " +:+ py_repr data +:+ ")".

(** The answer of [allocator_disabled] for a Boolean. *)
Definition allocation_word (b : bool) : string :=
  if b then "disabled" else "enabled".

(** ** Sample responses *)

(** [/_cluster/settings] with the allocation key [false] in the persistent
    scope and [true] in the transient one. *)
Definition sample_cluster_settings : pyval :=
  PDict [(Text.codes "persistent",
          PDict [(Text.codes allocation_key, ustr "false")]);
         (Text.codes "transient",
          PDict [(Text.codes allocation_key, PBool true)])].

(** [/_settings] with one index, [a], that does not set the flush knob. *)
Definition sample_index_settings : pyval :=
  PDict [(Text.codes "a", PDict [(Text.codes "settings", PDict [])])].

(** The index map [{a: "unknown"}]. *)
Definition index_a_unknown : gmap hkey pyval :=
  {[ KText (Text.codes "a") := PStr "unknown" ]}.

(** [/] as a node of version [number] answers it. *)
Definition sample_root (number : string) : pyval :=
  PDict [(Text.codes "version", PDict [(Text.codes "number", ustr number)])].

(** A node that answers every request with status 200 and the same body,
    and a decoder that decodes every body to [v]. *)
Definition constant_server (resp_body : string)
    : list request_sent → request_sent → response :=
  λ _ _, Response 200 resp_body.
Definition constant_decoder (v : pyval) : string → option pyval :=
  λ _, Some v.


(** The endpoint [my_node_id] asks for a node of version [t]. *)
Definition local_node_endpoint (t : list Z) : string :=
  if Version.tuple_ge t [1; 0; 0] then "/_nodes/_local"
  else "/_cluster/nodes/_local".

(** ** Connection: the cluster-state queries *)

(** [mapping.keys()]. *)
Definition dict_keys (v : pyval) : result pyval :=
  match v with
  | PDict d => Ok (PList (map (λ kv, PUnicode (fst kv)) d))
  | _ => Raise AttributeError
  end.

Section ClusterState.

Variable json_loads : string → option pyval.
Variable server : list request_sent → request_sent → response.

Definition master_node_id : conn pyval :=
  state ← get json_loads server "/_cluster/state";
  lift (getitem state "master_node").

Definition master : conn pyval :=
  id ← master_node_id;
  state ← get json_loads server "/_cluster/state";
  lift (nodes ← getitem state "nodes";
        node ← py_getitem nodes id;
        getitem node "name").

Definition indices : conn pyval :=
  state ← get json_loads server "/_cluster/state";
  lift (metadata ← getitem state "metadata";
        idxs ← getitem metadata "indices";
        dict_keys idxs).

End ClusterState.

(** What [get_index_translog_disable_flush] stores for an index whose
    entry in [/_settings] is [entry]. *)
Definition flush_setting (entry : pyval) : result pyval :=
  idx_settings ← getitem entry "settings";
  v ← dict_get idx_settings "index.translog.disable_flush" (PStr "unknown");
  booleanise v.

(** The number [z], as an [int] or a [long]. *)
Definition is_number (x : pyval) (z : Z) : bool :=
  match x with
  | PInt n | PLong n => bool_decide (n = z)
  | _ => false
  end.

(** The calls of [row] that did not raise, as the texts of their
    columns. *)
Definition rendered (calls : list (list pyval)) : list (list string) :=
  omap (λ columns, match traverse py_str columns with
                   | Ok cols => Some cols
                   | Raise _ => None
                   end) calls.

(** A character that, after [%], is read as a conversion taking an
    argument: not a flag, a digit, a [*], a [.], a length modifier, the
    opening of a mapping key or [%] itself. *)
Definition takes_argument (c : ascii) : bool :=
  negb (Text.mem c "%(-+ #0*.hlL" || Text.is_digit c).

(** A version text: numbers separated by dots. *)
Definition dotted (ns : list N) : string :=
  Text.join "." (map (λ n, Text.dec (Z.of_N n)) ns).

(** [/_cluster/state] of a cluster whose master is the node [id], of
    name [name]. *)
Definition sample_cluster_state (id name : string) : pyval :=
  PDict [(Text.codes "master_node", ustr id);
         (Text.codes "nodes",
          PDict [(Text.codes id, PDict [(Text.codes "name", ustr name)])]);
         (Text.codes "metadata",
          PDict [(Text.codes "indices",
                  PDict [(Text.codes "a", PDict [])])])].

(** * Properties *)

(** ** Text and results *)

Lemma append_cons (x : ascii) (a b : string) :
  String x a +:+ b = String x (a +:+ b).
Proof. reflexivity. Qed.

Lemma append_assoc (a b c : string) : (a +:+ b) +:+ c = a +:+ b +:+ c.
Proof.
  induction a as [|x a IH]; [done |].
  by rewrite !append_cons, IH.
Qed.

Lemma append_nil_r (a : string) : a +:+ "" = a.
Proof.
  induction a as [|x a IH]; [done |].
  by rewrite append_cons, IH.
Qed.

Lemma occurs_in_here (pre t post : string) :
  Text.occurs_in t (pre +:+ t +:+ post).
Proof. by exists pre, post. Qed.

Lemma occurs_in_append_l (a t s : string) :
  Text.occurs_in t s → Text.occurs_in t (a +:+ s).
Proof.
  intros (pre & post & ->). exists (a +:+ pre), post.
  by rewrite append_assoc.
Qed.

Lemma bind_ok {A B} (f : A → result B) (a : A) : Ok a ≫= f = f a.
Proof. reflexivity. Qed.

Lemma bind_raise {A B} (f : A → result B) (e : exn) :
  Raise e ≫= f = Raise e.
Proof. reflexivity. Qed.

(** Run the binds of [result] whose left side is known. *)
Ltac run := rewrite ?bind_ok, ?bind_raise; cbn beta.

Create HintDb occurs.
#[export] Hint Resolve occurs_in_here occurs_in_append_l : occurs.

(** ** booleanise *)

Lemma booleanise_rendered (v : pyval) (s : string) :
  py_str v = Ok s →
  booleanise v =
    Ok (if bool_decide (Text.lower s = "true") then PBool true
        else if bool_decide (Text.lower s = "false") then PBool false
        else v).
Proof.
  intros E. unfold booleanise. rewrite E. simpl.
  by repeat case_bool_decide.
Qed.

Lemma booleanise_bool (b : bool) : booleanise (PBool b) = Ok (PBool b).
Proof. by destruct b. Qed.

Lemma booleanise_examples :
  booleanise (PStr "TRUE") = Ok (PBool true) ∧
  booleanise (PStr "false") = Ok (PBool false) ∧
  booleanise (PStr "maybe") = Ok (PStr "maybe") ∧
  booleanise (PBool true) = Ok (PBool true) ∧
  booleanise (ustr "True") = Ok (PBool true).
Proof. by vm_compute. Qed.

(** C8, at the input on which the code departs from it: a unicode object
    with a character outside ASCII, such as the JSON decoder returns for
    the text [é], cannot be rendered by [str], so [booleanise] raises
    [UnicodeEncodeError] instead of returning the value unchanged. *)
Theorem booleanise_non_ascii_raises :
  py_str (PUnicode [233%N]) = Raise UnicodeEncodeError ∧
  booleanise (PUnicode [233%N]) = Raise UnicodeEncodeError ∧
  booleanise (PUnicode [233%N]) ≠ Ok (PUnicode [233%N]).
Proof. by vm_compute. Qed.

(** C10: [booleanise] is idempotent.  Applying it to its own result
    changes nothing, an exception of the first application included;
    [True] and [False] are fixed points; and a value that one application
    returns unchanged is returned unchanged by the second. *)
Theorem booleanise_idempotent :
  (∀ x, booleanise x ≫= booleanise = booleanise x) ∧
  (∀ b, booleanise (PBool b) = Ok (PBool b)) ∧
  (∀ x, booleanise x = Ok x → booleanise x ≫= booleanise = Ok x).
Proof.
  split_and!.
  - intros x. destruct (py_str x) as [s|e] eqn:E.
    + rewrite (booleanise_rendered x s E).
      repeat case_bool_decide; simpl;
        auto using booleanise_bool.
      rewrite (booleanise_rendered x s E).
      by repeat case_bool_decide.
    + unfold booleanise. by rewrite E.
  - apply booleanise_bool.
  - intros x E. by rewrite E.
Qed.

Lemma booleanise_idempotent_witness :
  booleanise (PStr "maybe") = Ok (PStr "maybe") ∧
  booleanise (PStr "maybe") ≫= booleanise = Ok (PStr "maybe").
Proof.
  split; [reflexivity |].
  apply (proj2 (proj2 booleanise_idempotent) (PStr "maybe")). reflexivity.
Defined.

(** ** request *)

Section RequestFacts.

Variable json_loads : string → option pyval.
Variable server : list request_sent → request_sent → response.

Lemma http_error_format (st : Z) (method path : string) (data : pyval) :
  py_format "Expected HTTP 200 - got HTTP %d: %s %s (data: %r)"
    [PInt st; PStr method; PStr path; data]
  = Ok (http_error_message st method path data).
Proof. reflexivity. Qed.

Lemma parse_failure_format (resp_body : string) :
  py_format "Failed to parse JSON in response: %r" [PStr resp_body]
  = Ok ("Failed to parse JSON in response: " +:+ repr_str resp_body).
Proof. cbv -[repr_str String.append]. by rewrite append_nil_r. Qed.

Lemma request_not_200 method path data c :
  let resp := server (sent c) (wire method path data) in
  status resp ≠ 200 →
  request json_loads server method path data c =
    (Raise (HttpError (http_error_message (status resp) method path data)),
     Connection (es_version c) (sent c ++ [wire method path data]) (logged c)).
Proof.
  intros resp H. unfold request, mbind, stateful_bind, exchange, lift.
  cbn beta iota zeta. fold (wire method path data). fold resp.
  rewrite bool_decide_eq_true_2 by done.
  by rewrite http_error_format.
Qed.

Lemma request_200 method path data c :
  let resp := server (sent c) (wire method path data) in
  let c' := Connection (es_version c) (sent c ++ [wire method path data])
              (logged c) in
  status resp = 200 →
  request json_loads server method path data c =
    match json_loads (body resp) with
    | Some v => (Ok v, c')
    | None =>
        if bool_decide (String.length (body resp) = 0%nat) then
          match json_loads "{}" with
          | Some v => (Ok v, c')
          | None => (Raise ValueError, c')
          end
        else
          (Raise ValueError,
           Connection (es_version c) (sent c ++ [wire method path data])
             (logged c ++ ["Failed to parse JSON in response: "
                             +:+ repr_str (body resp)]))
    end.
Proof.
  intros resp c' H. unfold request, mbind, stateful_bind, exchange, lift.
  cbn beta iota zeta. fold (wire method path data). fold resp.
  rewrite bool_decide_eq_false_2 by (intros ?; done).
  destruct (json_loads (body resp)); [done |].
  case_bool_decide.
  - by destruct (json_loads "{}").
  - by rewrite parse_failure_format.
Qed.

End RequestFacts.

(** C5: [request] raises [HttpError] exactly when the status of the
    response is not 200, and the message of the error then holds the
    status in decimal, the method, the path and the [repr] of the payload
    passed as [data]. *)
Theorem request_http_error json_loads server method path data c :
  let resp := server (sent c) (wire method path data) in
  let msg := http_error_message (status resp) method path data in
  ((∃ m, (request json_loads server method path data c).1
         = Raise (HttpError m)) ↔ status resp ≠ 200) ∧
  (status resp ≠ 200 →
   (request json_loads server method path data c).1 = Raise (HttpError msg)) ∧
  Text.occurs_in (Text.dec (status resp)) msg ∧
  Text.occurs_in method msg ∧
  Text.occurs_in path msg ∧
  Text.occurs_in (py_repr data) msg.
Proof.
  intros resp msg. split_and!.
  - destruct (decide (status resp = 200)) as [E|E].
    + split; [| done]. intros [m H]. exfalso. revert H.
      rewrite (request_200 json_loads server method path data c E).
      fold resp. destruct (json_loads (body resp)); [done |].
      case_bool_decide; [| done]. by destruct (json_loads "{}").
    + split; [done |]. intros _. eexists.
      by rewrite (request_not_200 json_loads server method path data c E).
  - intros E.
    by rewrite (request_not_200 json_loads server method path data c E).
  - unfold msg, http_error_message. auto with occurs.
  - unfold msg, http_error_message. auto 10 with occurs.
  - unfold msg, http_error_message. auto 10 with occurs.
  - unfold msg, http_error_message. auto 10 with occurs.
Qed.

Lemma request_http_error_witness :
  (request json_literal (λ _ _, Response 404 "") "GET" "/x" PNone fresh).1
  = Raise (HttpError "Expected HTTP 200 - got HTTP 404: GET /x (data: None)").
Proof.
  destruct (request_http_error json_literal (λ _ _, Response 404 "")
              "GET" "/x" PNone fresh) as (_ & H & _).
  apply H. simpl. lia.
Defined.

(** C2: on a response with status 200, [request] returns the decoded
    body when the body decodes; returns the empty mapping, without
    raising or logging, when the body is empty; and when the body is not
    empty and does not decode, it gives the body to [logger.error] and
    raises the decoder's [ValueError]. *)
Theorem request_decodes json_loads server method path data c :
  let resp := server (sent c) (wire method path data) in
  let r := request json_loads server method path data c in
  status resp = 200 →
  (∀ v, json_loads (body resp) = Some v →
        r.1 = Ok v ∧ logged r.2 = logged c) ∧
  (body resp = "" → json_loads "" = None →
   json_loads "{}" = Some (PDict []) →
   r.1 = Ok (PDict []) ∧ logged r.2 = logged c) ∧
  (body resp ≠ "" → json_loads (body resp) = None →
   r.1 = Raise ValueError ∧
   logged r.2 = logged c ++ ["Failed to parse JSON in response: "
                               +:+ repr_str (body resp)]).
Proof.
  intros resp r E. unfold r.
  rewrite (request_200 json_loads server method path data c E). fold resp.
  split_and!.
  - by intros v ->.
  - intros B H0 H1. rewrite B, H0. simpl. by rewrite H1.
  - intros B ->. rewrite bool_decide_eq_false_2; [done |].
    by destruct (body resp).
Qed.

Lemma request_decodes_witness :
  (request json_literal (λ _ _, Response 200 "") "GET" "/" PNone fresh).1
  = Ok (PDict []).
Proof.
  destruct (request_decodes json_literal (λ _ _, Response 200 "")
              "GET" "/" PNone fresh eq_refl) as (_ & H & _).
  apply H; reflexivity.
Defined.

(** ** allocator_disabled and flushing_disabled *)

Lemma lifted_after {S A B} (m : stateful S A) (f : A → result B) (s : S) :
  ((x ← m; lift (f x)) s).1 =
    match (m s).1 with Ok x => f x | Raise e => Raise e end.
Proof.
  unfold mbind, stateful_bind, lift. by destruct (m s) as [[x|e] s'].
Qed.

Lemma getitem_dict (d : list (list N * pyval)) (k : string) :
  Text.is_ascii k = true →
  getitem (PDict d) k =
    match dict_lookup (Text.codes k) d with
    | Some x => Ok x
    | None => Raise KeyError
    end.
Proof. intros E. unfold getitem, py_getitem. simpl. by rewrite E. Qed.

Lemma allocator_scope_dict settings state i d :
  getitem settings i = Ok (PDict d) →
  allocator_scope settings state i =
    match dict_lookup (Text.codes allocation_key) d with
    | None => Ok state
    | Some x =>
        v ← booleanise x;
        Ok (if py_eq_bool v true then "disabled"
            else if py_eq_bool v false then "enabled" else state)
    end.
Proof.
  intros E. unfold allocator_scope. rewrite E. run.
  change (contains allocation_key (PDict d)) with
    (Ok (bool_decide (is_Some (dict_lookup (Text.codes allocation_key) d)))).
  run. rewrite getitem_dict by reflexivity.
  destruct (dict_lookup (Text.codes allocation_key) d) as [x|].
  - rewrite bool_decide_eq_true_2 by done. run.
    destruct (booleanise x) as [v|e]; run; [| done].
    by repeat destruct (py_eq_bool v _).
  - rewrite bool_decide_eq_false_2; [done |]. by intros [? ?].
Qed.

(** C3: with both scopes of [/_cluster/settings] mappings,
    [allocator_disabled] answers "unknown" when neither scope holds the
    key, "disabled" or "enabled" as the value of the only scope holding it
    normalises to [True] or [False], and, when both scopes hold it with
    Boolean values, the answer of the transient scope, whatever the
    persistent one says. *)
Theorem allocator_disabled_resolution json_loads server c settings p t :
  (get json_loads server "/_cluster/settings" c).1 = Ok settings →
  getitem settings "persistent" = Ok (PDict p) →
  getitem settings "transient" = Ok (PDict t) →
  let vp := dict_lookup (Text.codes allocation_key) p in
  let vt := dict_lookup (Text.codes allocation_key) t in
  let answer := (allocator_disabled json_loads server c).1 in
  (vp = None → vt = None → answer = Ok "unknown") ∧
  (∀ x b, vp = Some x → vt = None → booleanise x = Ok (PBool b) →
          answer = Ok (allocation_word b)) ∧
  (∀ y b, vp = None → vt = Some y → booleanise y = Ok (PBool b) →
          answer = Ok (allocation_word b)) ∧
  (∀ x y bp bt, vp = Some x → vt = Some y →
          booleanise x = Ok (PBool bp) → booleanise y = Ok (PBool bt) →
          answer = Ok (allocation_word bt)).
Proof.
  intros G Hp Ht vp vt answer.
  assert (answer = s ← allocator_scope settings "unknown" "persistent";
                   allocator_scope settings s "transient") as ->.
  { unfold answer, allocator_disabled. rewrite lifted_after, G.
    unfold allocator_of, foldM.
    destruct (allocator_scope settings "unknown" "persistent") as [s|];
      run; [| done].
    by destruct (allocator_scope settings s "transient"). }
  rewrite (allocator_scope_dict _ _ _ _ Hp). fold vp.
  split_and!.
  - intros -> E. run. rewrite (allocator_scope_dict _ _ _ _ Ht).
    fold vt. by rewrite E.
  - intros x b -> E B. rewrite B. run.
    destruct b; cbn [py_eq_bool]; rewrite ?bool_decide_eq_true_2 by done;
      rewrite ?bool_decide_eq_false_2 by done; run;
      rewrite (allocator_scope_dict _ _ _ _ Ht); fold vt; by rewrite E.
  - intros y b -> E B. run. rewrite (allocator_scope_dict _ _ _ _ Ht).
    fold vt. rewrite E, B. run. by destruct b.
  - intros x y bp bt -> E Bp Bt. rewrite Bp. run.
    destruct bp; cbn [py_eq_bool]; rewrite ?bool_decide_eq_true_2 by done;
      rewrite ?bool_decide_eq_false_2 by done; run;
      rewrite (allocator_scope_dict _ _ _ _ Ht); fold vt; rewrite E, Bt; run;
      by destruct bt.
Qed.

Lemma allocator_disabled_resolution_witness :
  (allocator_disabled (constant_decoder sample_cluster_settings)
     (constant_server "{}") fresh).1 = Ok "disabled".
Proof.
  destruct (allocator_disabled_resolution
              (constant_decoder sample_cluster_settings)
              (constant_server "{}") fresh sample_cluster_settings
              [(Text.codes allocation_key, ustr "false")]
              [(Text.codes allocation_key, PBool true)]
              eq_refl eq_refl eq_refl) as (_ & _ & _ & H).
  apply (H (ustr "false") (PBool true) false true); reflexivity.
Defined.

Lemma traverse_Forall2 {A B} (f : A → result B) (l : list A) (l' : list B) :
  traverse f l = Ok l' → Forall2 (λ a b, f a = Ok b) l l'.
Proof.
  revert l'. induction l as [|a l IH]; intros l' H; simpl in H.
  - injection H as E. subst l'. constructor.
  - destruct (f a) as [b|] eqn:E; [| done]. revert H. run.
    destruct (traverse f l) as [bs|]; [| done]. run.
    intros [= <-]. constructor; auto.
Qed.

Lemma traverse_elem {A B} (f : A → result B) (l : list A) (l' : list B) b :
  traverse f l = Ok l' → b ∈ l' ↔ ∃ a, a ∈ l ∧ f a = Ok b.
Proof.
  intros H. apply traverse_Forall2 in H.
  induction H as [|a b' l l' Hab _ IH].
  - split; [by intros ?%elem_of_nil | by intros (? & ?%elem_of_nil & _)].
  - rewrite elem_of_cons, IH. split.
    + intros [-> | (a' & ? & ?)]; [exists a | exists a'];
        rewrite elem_of_cons; auto.
    + intros (a' & [-> | ?]%elem_of_cons & ?); [left; congruence |].
      right; eauto.
Qed.

Lemma value_set_elem (disabled : gmap hkey pyval) (states : gset hkey) k :
  value_set disabled = Ok states →
  k ∈ states ↔ ∃ i v, disabled !! i = Some v ∧ py_hash_key v = Ok k.
Proof.
  unfold value_set.
  destruct (traverse py_hash_key (map_to_list disabled).*2) as [keys|] eqn:E;
    [| done].
  run. intros [= <-].
  rewrite elem_of_list_to_set, (traverse_elem _ _ _ _ E). split.
  - intros (v & Hv & Hk). apply list_elem_of_fmap in Hv as ([i v'] & -> & Hi).
    apply elem_of_map_to_list in Hi. by exists i, v'.
  - intros (i & v & Hi & Hk). exists v. split; [| done].
    apply list_elem_of_fmap. exists (i, v). split; [done |].
    by apply elem_of_map_to_list.
Qed.

Lemma size_two_distinct (states : gset hkey) (a b : hkey) :
  a ∈ states → b ∈ states → a ≠ b → (1 < size states)%nat.
Proof.
  intros Ha Hb Hab.
  assert ({[a]} ∪ {[b]} ⊆ states) as Hsub.
  { apply union_subseteq. by split; apply singleton_subseteq_l. }
  apply subseteq_size in Hsub.
  rewrite size_union in Hsub by set_solver.
  rewrite !size_singleton in Hsub. lia.
Qed.

(** C1, as the code has it: [flushing_disabled] looks at the set of
    distinct values of the index map.  It answers "some" when [True] is
    among two or more distinct values, "disabled" when [True] is the only
    value, "enabled" when the only value is anything else, the ["unknown"]
    marker included, and "unknown" when the map is empty or holds several
    distinct values none of which is [True]. *)
Theorem flushing_disabled_answers json_loads server c disabled states :
  (get_index_translog_disable_flush json_loads server c).1 = Ok disabled →
  value_set disabled = Ok states →
  let answer := (flushing_disabled json_loads server c).1 in
  (∀ k, k ∈ states ↔
        ∃ i v, disabled !! i = Some v ∧ py_hash_key v = Ok k) ∧
  (KNum 1 ∈ states → (∃ k, k ∈ states ∧ k ≠ KNum 1) → answer = Ok "some") ∧
  (states = {[KNum 1]} → answer = Ok "disabled") ∧
  (∀ k, k ≠ KNum 1 → states = {[k]} → answer = Ok "enabled") ∧
  (states = ∅ → answer = Ok "unknown") ∧
  (KNum 1 ∉ states → (1 < size states)%nat → answer = Ok "unknown").
Proof.
  intros G V answer.
  assert (answer = flushing_of disabled) as ->.
  { unfold answer, flushing_disabled. by rewrite lifted_after, G. }
  unfold flushing_of. rewrite V. run. split_and!.
  - intros k. by apply value_set_elem.
  - intros H1 (k & Hk & Hne).
    pose proof (size_two_distinct _ _ _ H1 Hk (not_eq_sym Hne)).
    by rewrite (bool_decide_eq_true_2 _ H), (bool_decide_eq_true_2 _ H1).
  - intros ->. rewrite size_singleton.
    rewrite (bool_decide_eq_false_2 (1 < 1)%nat) by lia.
    rewrite (bool_decide_eq_true_2 (1 = 1)%nat) by done.
    by rewrite bool_decide_eq_true_2 by set_solver.
  - intros k Hk ->. rewrite size_singleton.
    rewrite (bool_decide_eq_false_2 (1 < 1)%nat) by lia.
    rewrite (bool_decide_eq_true_2 (1 = 1)%nat) by done.
    rewrite bool_decide_eq_false_2; [done | set_solver].
  - intros ->. rewrite size_empty.
    rewrite (bool_decide_eq_false_2 (1 < 0)%nat) by lia.
    by rewrite (bool_decide_eq_false_2 (0 = 1)%nat) by lia.
  - intros H1 Hs. rewrite (bool_decide_eq_false_2 (KNum 1 ∈ states)) by done.
    rewrite andb_false_r.
    by rewrite bool_decide_eq_false_2 by lia.
Qed.

Lemma flushing_disabled_answers_witness :
  (flushing_disabled (constant_decoder sample_index_settings)
     (constant_server "{}") fresh).1 = Ok "enabled".
Proof.
  destruct (flushing_disabled_answers
              (constant_decoder sample_index_settings)
              (constant_server "{}") fresh index_a_unknown
              {[ KText (Text.codes "unknown") ]})
    as (_ & _ & _ & H & _).
  - by vm_compute.
  - by vm_compute.
  - apply (H (KText (Text.codes "unknown"))); [discriminate | reflexivity].
Defined.

(** C1 as the specification has it, refuted: the index map
    [{a: "unknown"}], which a [/_settings] response with one index and no
    flush setting produces, is answered "enabled", not "unknown". *)
Lemma flushing_all_unknown_is_enabled :
  index_translog_of sample_index_settings = Ok index_a_unknown ∧
  flushing_of index_a_unknown = Ok "enabled" ∧
  flushing_of index_a_unknown ≠ Ok "unknown".
Proof. by vm_compute. Qed.

Lemma flushing_examples :
  flushing_of ∅ = Ok "unknown" ∧
  flushing_of {[ KText (Text.codes "a") := PBool true;
                 KText (Text.codes "b") := PBool true ]} = Ok "disabled" ∧
  flushing_of {[ KText (Text.codes "a") := PBool true;
                 KText (Text.codes "b") := PBool false ]} = Ok "some" ∧
  flushing_of {[ KText (Text.codes "a") := PBool false;
                 KText (Text.codes "b") := PStr "unknown" ]} = Ok "unknown".
Proof. by vm_compute. Qed.

(** ** my_node_id *)



Section MyNodeId.

Variable json_loads : string → option pyval.
Variable server : list request_sent → request_sent → response.

Lemma bind_stateful {S A B} (m : stateful S A) (f : A → stateful S B) s :
  (m ≫= f) s =
    match m s with
    | (Ok a, s') => f a s'
    | (Raise e, s') => (Raise e, s')
    end.
Proof. reflexivity. Qed.

Lemma bind_lift {S A B} (r : result A) (f : A → stateful S B) s :
  (lift r ≫= f) s =
    match r with
    | Ok a => f a s
    | Raise e => (Raise e, s)
    end.
Proof. by destruct r. Qed.

(** A request keeps the cached version and puts one request on the wire. *)
Lemma request_wire method path data c :
  let r := request json_loads server method path data c in
  es_version r.2 = es_version c ∧
  sent r.2 = sent c ++ [wire method path data].
Proof.
  intros r. unfold r.
  destruct (decide (status (server (sent c) (wire method path data)) = 200))
    as [E|E].
  - rewrite (request_200 _ _ _ _ _ _ E).
    destruct (json_loads _); [done |].
    case_bool_decide; [| done]. by destruct (json_loads "{}").
  - by rewrite (request_not_200 _ _ _ _ _ _ E).
Qed.

Lemma version_cached c t :
  es_version c = Some t → version json_loads server c = (Ok t, c).
Proof.
  intros E. unfold version. rewrite bind_stateful. unfold inspect.
  by rewrite E.
Qed.

(** Without a cached version, [GET /] goes on the wire; the tuple is
    stored exactly when it could be computed. *)
Lemma version_uncached c :
  es_version c = None →
  let r := version json_loads server c in
  sent r.2 = sent c ++ [wire "GET" "/" PNone] ∧
  match r.1 with
  | Ok t =>
      es_version r.2 = Some t ∧
      ∃ root v number,
        (get json_loads server "/" c).1 = Ok root ∧
        getitem root "version" = Ok v ∧
        getitem v "number" = Ok number ∧
        Version.parse number = Ok t
  | Raise _ => es_version r.2 = None
  end.
Proof.
  intros E r. unfold r, version. rewrite bind_stateful. unfold inspect.
  rewrite E. rewrite bind_stateful. unfold get.
  destruct (request_wire "GET" "/" PNone c) as [Hv Hs].
  destruct (request json_loads server "GET" "/" PNone c) as [[root|e] c1];
    simpl in Hv, Hs; [| by rewrite <- E].
  rewrite bind_lift.
  destruct (getitem root "version") as [v|] eqn:E1; [| by rewrite <- E].
  rewrite bind_lift.
  destruct (getitem v "number") as [number|] eqn:E2; [| by rewrite <- E].
  rewrite bind_lift.
  destruct (Version.parse number) as [t|] eqn:E3; [| by rewrite <- E].
  split; [done |]. split; [done |]. by exists root, v, number.
Qed.

Lemma my_node_id_state c :
  let r := version json_loads server c in
  (my_node_id json_loads server c).2 =
    match r.1 with
    | Ok t => (get json_loads server (local_node_endpoint t) r.2).2
    | Raise _ => r.2
    end.
Proof.
  intros r. unfold r, my_node_id. rewrite bind_stateful.
  destruct (version json_loads server c) as [[t|e] c1]; [| done].
  rewrite bind_stateful. unfold local_node_endpoint. simpl.
  destruct (Version.tuple_ge t [1; 0; 0]).
  - destruct (get json_loads server "/_nodes/_local" c1) as [[info|] c2];
      [| done].
    rewrite bind_lift. unfold lift. by destruct (getitem info "nodes").
  - destruct (get json_loads server "/_cluster/nodes/_local" c1)
      as [[info|] c2]; [| done].
    rewrite bind_lift. unfold lift. by destruct (getitem info "nodes").
Qed.










End MyNodeId.

(** ** Reading a version text *)

Section VersionFacts.
Import Version.

Lemma codes_cons (c : ascii) (s : string) :
  Text.codes (String c s) = N_of_ascii c :: Text.codes s.
Proof. reflexivity. Qed.

Lemma codes_append (a b : string) :
  Text.codes (a +:+ b) = Text.codes a ++ Text.codes b.
Proof.
  induction a as [|c a IH]; [done |].
  by rewrite append_cons, !codes_cons, IH.
Qed.

(** The pieces hold what the text held, the separators apart. *)
Lemma split_pieces (l : list N) :
  split l ≠ [] ∧
  Forall (Forall (λ n, n ∈ l ∧ is_separator n = false)) (split l).
Proof.
  induction l as [|n l [IHn IH]]; [by repeat constructor |].
  assert (Forall (Forall (λ k, k ∈ n :: l ∧ is_separator k = false))
            (split l)) as IH'.
  { eapply Forall_impl; [exact IH |]. intros p Hp.
    eapply Forall_impl; [exact Hp |]. intros k [? ?].
    split; [by right | done]. }
  cbn [split]. destruct (is_separator n) eqn:Sn.
  - split; [done |]. by constructor.
  - destruct (split l) as [|piece pieces]; [done |]. split; [done |].
    apply Forall_cons in IH' as [Hp Hps]. constructor; [| done].
    constructor; [| done]. split; [by left | done].
Qed.

Lemma sanitized_pieces (u : list N) :
  Forall (Forall (λ n, is_digit_code n = true)) (split (sanitize u)).
Proof.
  destruct (split_pieces (sanitize u)) as [_ H].
  eapply Forall_impl; [exact H |]. intros p Hp.
  eapply Forall_impl; [exact Hp |]. intros n [Hn Hs]. simpl in *.
  apply list_elem_of_filter in Hn as [Hn _].
  apply Is_true_true in Hn. rewrite Hs, orb_false_r in Hn. done.
Qed.

Lemma digits_value_digits (u : list N) (acc : Z) :
  Forall (λ n, is_digit_code n = true) u → 0 ≤ acc →
  ∃ z, digits_value acc u = Ok z ∧ acc ≤ z.
Proof.
  intros H. revert acc. induction H as [|n u Hn _ IH]; intros acc Hacc.
  - exists acc. split; [done | lia].
  - cbn [digits_value]. rewrite Hn.
    destruct (IH (10 * acc + Z.of_N (n - 48))) as (z & -> & ?); [lia |].
    exists z. split; [done | lia].
Qed.

Lemma int_of_digits (p : list N) :
  Forall (λ n, is_digit_code n = true) p →
  match p with
  | [] => int_of p = Raise ValueError
  | _ => ∃ z, int_of p = Ok z ∧ 0 ≤ z
  end.
Proof.
  intros Hp. destruct p as [|n p]; [done |].
  by apply (digits_value_digits (n :: p) 0 Hp).
Qed.

Lemma traverse_int_of (pieces : list (list N)) :
  Forall (Forall (λ n, is_digit_code n = true)) pieces →
  (Forall (λ p, p ≠ []) pieces →
   ∃ t, traverse int_of pieces = Ok t ∧ length t = length pieces ∧
        Forall (λ z, 0 ≤ z) t) ∧
  (Exists (λ p, p = []) pieces → traverse int_of pieces = Raise ValueError).
Proof.
  induction 1 as [|p pieces Hp _ [IH1 IH2]].
  - split; [by exists [] | by intros ?%Exists_nil].
  - pose proof (int_of_digits p Hp) as Hi. split.
    + intros [Hne Hall]%Forall_cons. destruct (IH1 Hall) as (t & Ht & Hl & Hz).
      destruct p as [|n p]; [done |]. destruct Hi as (z & Hd & ?).
      exists (z :: t). cbn [traverse]. rewrite Hd, Ht. run.
      split_and!; [done | simpl; by rewrite Hl | by constructor].
    + intros Hex. cbn [traverse].
      destruct p as [|n p]; [by rewrite Hi |].
      apply Exists_cons in Hex as [? | Hex]; [done |].
      destruct Hi as (z & -> & _). rewrite (IH2 Hex). by run.
Qed.

Lemma uint_codes (d : Decimal.uint) :
  Forall (λ n, is_digit_code n = true ∧ is_separator n = false)
    (Text.codes (NilEmpty.string_of_uint d)).
Proof.
  induction d; cbn [NilEmpty.string_of_uint]; [constructor | ..];
    rewrite codes_cons; by constructor.
Qed.

Lemma uint_value (d : Decimal.uint) (a : N) :
  digits_value (Z.of_N a) (Text.codes (NilEmpty.string_of_uint d))
  = Ok (Z.of_N match a with
               | N0 => Pos.of_uint d
               | N.pos p => N.pos (Pos.of_uint_acc d p)
               end).
Proof.
  revert a. induction d as [|d IH|d IH|d IH|d IH|d IH|d IH|d IH|d IH|d IH|d IH];
    intros a; [by destruct a | ..];
    cbn [NilEmpty.string_of_uint]; rewrite codes_cons; cbn [digits_value];
    match goal with
    | |- context [is_digit_code ?c] =>
        let b := eval vm_compute in (is_digit_code c) in
        let v := eval vm_compute in (Z.of_N (c - 48)) in
        change (is_digit_code c) with b; change (Z.of_N (c - 48)) with v
    end;
    cbn iota;
    match goal with
    | |- digits_value (10 * Z.of_N a + ?k) _ = _ =>
        replace (10 * Z.of_N a + k) with (Z.of_N (10 * a + Z.to_N k)) by lia
    end;
    rewrite IH; destruct a as [|p]; cbn [N.mul N.add Z.to_N Pos.of_uint
                                          Pos.of_uint_acc];
    try reflexivity;
    match goal with
    | |- Ok (Z.of_N match ?n with 0%N => _ | N.pos _ => _ end)
         = Ok (Z.of_N (N.pos (Pos.of_uint_acc _ ?q))) =>
        replace n with (N.pos q) by lia
    end; reflexivity.
Qed.

(** A number printed in decimal: digits only, at least one, and read
    back by [int]. *)
Lemma dec_read_back (n : N) :
  let u := Text.codes (Text.dec (Z.of_N n)) in
  Forall (λ k, is_digit_code k = true ∧ is_separator k = false) u ∧
  int_of u = Ok (Z.of_N n).
Proof.
  destruct n as [|p]; [by repeat constructor |].
  change (Text.dec (Z.of_N (N.pos p)))
    with (NilZero.string_of_uint (Pos.to_uint p)).
  pose proof (DecimalPos.Unsigned.to_uint_nonnil p) as Hn.
  pose proof (DecimalPos.Unsigned.of_to p) as Hp.
  pose proof (uint_codes (Pos.to_uint p)) as Hc.
  pose proof (uint_value (Pos.to_uint p) 0) as Hv.
  destruct (Pos.to_uint p) as [|d|d|d|d|d|d|d|d|d|d]; [done | ..];
    (split; [exact Hc |]); rewrite <- Hp; exact Hv.
Qed.

Lemma sanitize_cons_kept (n : N) (u : list N) :
  is_digit_code n || is_separator n = true →
  sanitize (n :: u) = n :: sanitize u.
Proof.
  intros H. unfold sanitize. rewrite filter_cons_True; [done |].
  by apply Is_true_true.
Qed.

Lemma sanitize_digits (p rest : list N) :
  Forall (λ k, is_digit_code k = true ∧ is_separator k = false) p →
  sanitize (p ++ rest) = p ++ sanitize rest.
Proof.
  induction 1 as [|k p [Hk _] _ IH]; [done |].
  rewrite <- !app_comm_cons, sanitize_cons_kept, IH; [done |].
  by rewrite Hk.
Qed.

Lemma split_digits_end (p : list N) :
  Forall (λ k, is_digit_code k = true ∧ is_separator k = false) p →
  split p = [p].
Proof.
  induction 1 as [|k p [_ Hk] _ IH]; [done |].
  cbn [split]. by rewrite Hk, IH.
Qed.

Lemma split_digits_dot (p rest : list N) :
  Forall (λ k, is_digit_code k = true ∧ is_separator k = false) p →
  split (p ++ 46%N :: rest) = p :: split rest.
Proof.
  induction 1 as [|k p [_ Hk] _ IH]; [done |].
  rewrite <- app_comm_cons. cbn [split]. by rewrite Hk, IH.
Qed.

Lemma dotted_pieces (n : N) (ns : list N) :
  split (sanitize (Text.codes (dotted (n :: ns))))
  = map (λ k, Text.codes (Text.dec (Z.of_N k))) (n :: ns).
Proof.
  revert n. induction ns as [|n' ns IH]; intros n.
  - destruct (dec_read_back n) as [Hd _].
    change (dotted [n]) with (Text.dec (Z.of_N n)).
    rewrite <- (app_nil_r (Text.codes _)), sanitize_digits by done.
    rewrite app_nil_r. by apply split_digits_end.
  - destruct (dec_read_back n) as [Hd _].
    change (dotted (n :: n' :: ns))
      with (Text.dec (Z.of_N n) +:+ "." +:+ dotted (n' :: ns)).
    rewrite codes_append, sanitize_digits by done.
    rewrite codes_append.
    change (Text.codes "." ++ ?l) with (46%N :: l).
    rewrite sanitize_cons_kept by done.
    rewrite split_digits_dot by done. by rewrite IH.
Qed.






End VersionFacts.




(** ** TabularPrinter: the widths *)

Section Zip.
Local Open Scope nat_scope.
Import TabularPrinter.

Context {A : Type} (none : A).

(** Every sequence is exhausted at [idx] exactly from the length of the
    longest on. *)
Lemma all_exhausted (seqs : list (list A)) (idx : nat) :
  length (filter (λ seq : list A, seq !! idx = None) seqs) = length seqs
  ↔ longest seqs ≤ idx.
Proof.
  induction seqs as [|seq seqs IH]; simpl; [lia |].
  rewrite filter_cons. destruct (decide (seq !! idx = None)) as [E|E].
  - apply lookup_ge_None in E. simpl. rewrite Nat.succ_inj_wd, IH. lia.
  - pose proof (length_filter (λ seq : list A, seq !! idx = None) seqs).
    rewrite lookup_ge_None in E. lia.
Qed.

(** Enough fuel gives the result: the tuples for the indices below the
    length of the longest sequence. *)
Lemma zip_loop_enough (seqs : list (list A)) (fuel idx : nat) tups :
  longest seqs - idx < fuel →
  zip_loop none fuel seqs idx tups =
    Some (tups ++ map (zip_column none seqs) (seq idx (longest seqs - idx))).
Proof.
  revert idx tups. induction fuel as [|fuel IH]; intros idx tups H;
    [lia |].
  simpl. case_bool_decide as E; rewrite all_exhausted in E.
  - replace (longest seqs - idx) with 0 by lia. simpl.
    by rewrite app_nil_r.
  - rewrite IH by lia.
    replace (longest seqs - idx) with (S (longest seqs - S idx)) by lia.
    simpl. by rewrite <- app_assoc.
Qed.

Lemma nontruncating_zip_total (seqs : list (list A)) :
  nontruncating_zip none seqs =
    Some (map (zip_column none seqs) (seq 0 (longest seqs))).
Proof.
  unfold nontruncating_zip. rewrite zip_loop_enough by lia.
  by rewrite Nat.sub_0_r.
Qed.

End Zip.

Section Widths.
Local Open Scope nat_scope.
Import TabularPrinter Table.

Lemma traverse_max_of_pair (a b : list (option nat)) (i n : nat) :
  traverse max_of_pair (map (zip_column None [a; b]) (seq i n)) =
    Ok (map (λ idx, py_max (default None (a !! idx)) (default None (b !! idx)))
          (seq i n)).
Proof.
  revert i. induction n as [|n IH]; intros i; [done |].
  simpl. run. rewrite IH. by run.
Qed.

Lemma row_ok (tp : printer) columns cols :
  traverse py_str columns = Ok cols →
  row columns tp =
    (Ok (),
     Printer (margin tp) (separator tp)
       (merged (_column_widths tp) (map (λ c, Some (String.length c)) cols))
       (Nat.max (_max_columns tp) (length cols))
       (S (_row_count tp)) (_rows tp ++ [cols])).
Proof.
  intros E. unfold row. rewrite bind_lift, E.
  unfold mbind, stateful_bind, update, inspect, lift. cbn beta iota zeta.
  cbn [_column_widths]. rewrite nontruncating_zip_total.
  change (longest [_column_widths tp;
                   map (λ c, Some (String.length c)) cols])
    with (Nat.max (length (_column_widths tp))
            (Nat.max (length (map (λ c, Some (String.length c)) cols)) 0)).
  by rewrite Nat.max_0_r, traverse_max_of_pair.
Qed.

Lemma row_raises (tp : printer) columns e :
  traverse py_str columns = Raise e → row columns tp = (Raise e, tp).
Proof. intros E. unfold row. by rewrite bind_lift, E. Qed.

Lemma max_list_with_snoc {B} (f : B → nat) (l : list B) (x : B) :
  max_list_with f (l ++ [x]) = Nat.max (max_list_with f l) (f x).
Proof. induction l as [|y l IH]; simpl; lia. Qed.

Lemma max_list_with_elem_of {B} (f : B → nat) (l : list B) (x : B) :
  x ∈ l → f x ≤ max_list_with f l.
Proof.
  induction 1 as [y l|y z l _ IH]; simpl; lia.
Qed.

Lemma cell_length_beyond (r : list string) (i : nat) :
  length r ≤ i → cell_length r i = 0.
Proof.
  intros H. unfold cell_length. by rewrite (proj2 (lookup_ge_None r i) H).
Qed.

Lemma final_width_beyond (rows : list (list string)) (i : nat) :
  columns_seen rows ≤ i → final_width rows i = 0.
Proof.
  unfold columns_seen, final_width.
  induction rows as [|r rows IH]; simpl; [done |]. intros H.
  rewrite cell_length_beyond, IH; lia.
Qed.

Lemma py_max_some (a b : nat) : py_max (Some a) (Some b) = Some (Nat.max a b).
Proof.
  unfold py_max. destruct (Nat.ltb_spec a b); f_equal; lia.
Qed.

Lemma merged_tidy (rows : list (list string)) (cols : list string) :
  merged (map (λ i, Some (final_width rows i)) (seq 0 (columns_seen rows)))
    (map (λ c, Some (String.length c)) cols)
  = map (λ i, Some (final_width (rows ++ [cols]) i))
      (seq 0 (columns_seen (rows ++ [cols]))).
Proof.
  unfold merged, columns_seen at 3.
  rewrite max_list_with_snoc, !length_map, length_seq.
  fold (columns_seen rows). apply map_ext_in. intros i Hi.
  apply in_seq in Hi.
  unfold final_width at 2. rewrite max_list_with_snoc.
  fold (final_width rows i).
  rewrite !list_lookup_fmap. unfold cell_length.
  destruct (cols !! i) as [c|] eqn:Ec.
  - destruct (decide (i < columns_seen rows)) as [H|H].
    + rewrite lookup_seq_lt by done. apply py_max_some.
    + rewrite lookup_seq_ge by lia.
      by rewrite final_width_beyond by lia.
  - destruct (decide (i < columns_seen rows)) as [H|H].
    + rewrite lookup_seq_lt by done. by rewrite Nat.max_0_r.
    + apply lookup_ge_None in Ec. lia.
Qed.

Lemma row_tidy (tp : printer) columns : tidy tp → tidy (row columns tp).2.
Proof.
  intros (Hw & Hm & Hc).
  destruct (traverse py_str columns) as [cols|e] eqn:E.
  - rewrite (row_ok _ _ _ E). unfold tidy. simpl.
    rewrite Hw, merged_tidy. split; [done |].
    unfold columns_seen. rewrite max_list_with_snoc, length_app. simpl.
    fold (columns_seen (_rows tp)). lia.
  - by rewrite (row_raises _ _ _ E).
Qed.

Lemma rows_added_tidy (calls : list (list pyval)) (tp : printer) :
  tidy tp → tidy (rows_added calls tp).
Proof.
  revert tp. induction calls as [|columns calls IH]; intros tp H; [done |].
  apply IH. by apply row_tidy.
Qed.

Lemma new_tidy (m sep : string) : tidy (Printer m sep [] 0 0 []).
Proof. by repeat split. Qed.

Lemma tidy_width (tp : printer) (r : list string) (i : nat) (column : string) :
  tidy tp → r ∈ _rows tp → r !! i = Some column →
  _column_widths tp !! i = Some (Some (final_width (_rows tp) i)) ∧
  String.length column ≤ final_width (_rows tp) i ∧
  length r ≤ length (_column_widths tp).
Proof.
  intros (Hw & _ & _) Hr Hi. rewrite Hw, length_map, length_seq.
  assert (length r ≤ columns_seen (_rows tp)) as Hlen.
  { unfold columns_seen. by apply max_list_with_elem_of. }
  pose proof (lookup_lt_Some _ _ _ Hi) as Hlt.
  split_and!; [| | done].
  - rewrite list_lookup_fmap, lookup_seq_lt by lia. done.
  - unfold final_width.
    transitivity (cell_length r i);
      [| by apply (max_list_with_elem_of (λ r, cell_length r i))].
    unfold cell_length. by rewrite Hi.
Qed.

End Widths.

Import TabularPrinter Table.

(** C6: after any sequence of [row] calls on a new printer, whatever the
    column counts and whether or not a call raised, the widths are
    exactly the per-column maxima of the text lengths over the rows
    kept, one width per column of the longest row: so the sequence of
    widths is at least as long as every row and each width is at least
    the length of every cell of its column.  A call whose columns all
    render never raises, and [nontruncating_zip] always reaches its
    [break], giving as many tuples as the longest sequence has items. *)
Theorem row_widths_invariant (m sep : string) (calls : list (list pyval)) :
  let tp := rows_added calls (Printer m sep [] 0 0 []) in
  _column_widths tp =
    map (λ i, Some (final_width (_rows tp) i))
      (seq 0 (columns_seen (_rows tp))) ∧
  _max_columns tp = columns_seen (_rows tp) ∧
  length (_column_widths tp) = _max_columns tp ∧
  (∀ r, r ∈ _rows tp → (length r ≤ length (_column_widths tp))%nat) ∧
  (∀ r i column, r ∈ _rows tp → r !! i = Some column →
     ∃ w, _column_widths tp !! i = Some (Some w) ∧
          (String.length column ≤ w)%nat) ∧
  (∀ columns cols, traverse py_str columns = Ok cols →
     (row columns tp).1 = Ok () ∧
     length (_column_widths (row columns tp).2)
     = Nat.max (length (_column_widths tp)) (length cols)) ∧
  (∀ columns e, traverse py_str columns = Raise e →
     row columns tp = (Raise e, tp)) ∧
  (∀ a b : list (option nat),
     ∃ tups, nontruncating_zip None [a; b] = Some tups ∧
             length tups = Nat.max (length a) (length b)).
Proof.
  intros tp.
  pose proof (rows_added_tidy calls _ (new_tidy m sep)) as T. fold tp in T.
  pose proof T as (Hw & Hm & Hc).
  split_and!; [done | done | | | | | |].
  - by rewrite Hw, length_map, length_seq.
  - intros r Hr. destruct (decide (r = [])) as [-> | Hne]; [simpl; lia |].
    destruct r as [|column r]; [done |].
    by destruct (tidy_width tp (column :: r) 0 column T Hr eq_refl)
      as (_ & _ & ?).
  - intros r i column Hr Hi.
    destruct (tidy_width tp r i column T Hr Hi) as (? & ? & _). eauto.
  - intros columns cols E. rewrite (row_ok _ _ _ E). simpl.
    split; [done |]. unfold merged.
    by rewrite length_map, length_seq, length_map.
  - intros columns e E. by apply row_raises.
  - intros a b. rewrite nontruncating_zip_total. eexists. split; [done |].
    rewrite length_map, length_seq. simpl. lia.
Qed.

Lemma row_widths_invariant_witness :
  let tp := rows_added sample_calls TabularPrinter.new in
  _rows tp = sample_rows ∧
  _column_widths tp = [Some 5%nat; Some 2%nat] ∧
  ∃ w, _column_widths tp !! 0%nat = Some (Some w) ∧
       (String.length "alice" ≤ w)%nat.
Proof.
  split; [reflexivity |]. split; [reflexivity |].
  destruct (row_widths_invariant DEFAULT_MARGIN DEFAULT_SEPARATOR sample_calls)
    as (_ & _ & _ & _ & H & _).
  apply (H ["alice"; "30"] 0%nat "alice").
  - apply list_elem_of_here.
  - reflexivity.
Defined.

(** ** The format of a cell *)

Section CellFormat.
Import Text.

Lemma format_go_emit st c piece st' args' fmt args :
  step st c args = Ok (piece, st', args') →
  format_go st (String c fmt) args =
    (r ← format_go st' fmt args'; Ok (piece +:+ r)).
Proof.
  intros E. cbn [format_go]. rewrite E.
  by destruct (format_go st' fmt args').
Qed.

Lemma format_go_silent st c st' fmt args :
  step st c args = Ok (EmptyString, st', args) →
  format_go st (String c fmt) args = format_go st' fmt args.
Proof.
  intros E. rewrite (format_go_emit _ _ _ _ _ _ _ E).
  by destruct (format_go st' fmt args).
Qed.

(** A text without [%] is copied as it is. *)
Lemma format_literal (sep : string) :
  mem "%"%char sep = false → format_go Lit sep [] = Ok sep.
Proof.
  induction sep as [|c sep IH]; [done |]. cbn [mem].
  intros [Hc Hs]%orb_false_elim. apply bool_decide_eq_false in Hc.
  rewrite (format_go_emit Lit c (String c EmptyString) Lit []).
  - by rewrite IH.
  - cbn [step]. destruct (Ascii.eqb_spec c "%"); [by subst | done].
Qed.

(** The conversion [s] at the end of a specifier that asked for width
    [w], on a byte string. *)
Lemma format_conversion_s (st : stage) (ljust : bool) (w : N)
    (sep column : string) :
  mem "%"%char sep = false →
  (∃ other, st = Width ljust other w ∨ (st = Flags ljust other ∧ w = 0%N)) →
  format_go st ("s" +:+ sep) [PStr column] = Ok (pad ljust w column +:+ sep).
Proof.
  intros Hs [other [-> | [-> ->]]];
    change ("s" +:+ sep) with (String "s" sep).
  - rewrite (format_go_emit _ _ (pad ljust w column) Lit [])
      by reflexivity.
    by rewrite (format_literal _ Hs).
  - rewrite (format_go_emit _ _ (pad ljust 0 column) Lit [])
      by reflexivity.
    by rewrite (format_literal _ Hs).
Qed.

Lemma scan_width (d : Decimal.uint) (p : positive) ljust other rest args :
  format_go (Width ljust other (N.pos p))
    (NilEmpty.string_of_uint d +:+ rest) args
  = format_go (Width ljust other (N.pos (Pos.of_uint_acc d p))) rest args.
Proof.
  revert p. induction d as [|d IH|d IH|d IH|d IH|d IH|d IH|d IH|d IH|d IH|d IH];
    intros p; [done | ..];
    cbn [NilEmpty.string_of_uint Pos.of_uint_acc]; rewrite append_cons;
    rewrite <- IH; apply format_go_silent; cbn [step];
    match goal with
    | |- context [is_digit ?c] =>
        let b := eval vm_compute in (is_digit c) in
        let v := eval vm_compute in (digit_val c) in
        change (is_digit c) with b; change (digit_val c) with v
    end;
    cbn iota; repeat f_equal; lia.
Qed.

Lemma scan_flags (d : Decimal.uint) other sep column :
  mem "%"%char sep = false →
  format_go (Flags true other)
    (NilEmpty.string_of_uint d +:+ "s" +:+ sep) [PStr column]
  = Ok (pad true (Pos.of_uint d) column +:+ sep).
Proof.
  intros Hs. revert other.
  induction d as [|d IH|d IH|d IH|d IH|d IH|d IH|d IH|d IH|d IH|d IH];
    intros other; cbn [NilEmpty.string_of_uint Pos.of_uint].
  - apply format_conversion_s; eauto.
  - rewrite append_cons, <- (IH true). by apply format_go_silent.
  - rewrite append_cons, (format_go_silent _ _ (Width true other 1))
      by reflexivity.
    rewrite scan_width. apply format_conversion_s; eauto.
  - rewrite append_cons, (format_go_silent _ _ (Width true other 2))
      by reflexivity.
    rewrite scan_width. apply format_conversion_s; eauto.
  - rewrite append_cons, (format_go_silent _ _ (Width true other 3))
      by reflexivity.
    rewrite scan_width. apply format_conversion_s; eauto.
  - rewrite append_cons, (format_go_silent _ _ (Width true other 4))
      by reflexivity.
    rewrite scan_width. apply format_conversion_s; eauto.
  - rewrite append_cons, (format_go_silent _ _ (Width true other 5))
      by reflexivity.
    rewrite scan_width. apply format_conversion_s; eauto.
  - rewrite append_cons, (format_go_silent _ _ (Width true other 6))
      by reflexivity.
    rewrite scan_width. apply format_conversion_s; eauto.
  - rewrite append_cons, (format_go_silent _ _ (Width true other 7))
      by reflexivity.
    rewrite scan_width. apply format_conversion_s; eauto.
  - rewrite append_cons, (format_go_silent _ _ (Width true other 8))
      by reflexivity.
    rewrite scan_width. apply format_conversion_s; eauto.
  - rewrite append_cons, (format_go_silent _ _ (Width true other 9))
      by reflexivity.
    rewrite scan_width. apply format_conversion_s; eauto.
Qed.

Lemma dec_of_nat (w : nat) :
  ∃ d, dec (Z.of_nat w) = NilEmpty.string_of_uint d ∧
       Pos.of_uint d = N.of_nat w.
Proof.
  destruct w as [|w].
  - by exists (Decimal.D0 Decimal.Nil).
  - exists (Pos.to_uint (Pos.of_succ_nat w)). split.
    + change (dec (Z.of_nat (S w))) with
        (NilZero.string_of_uint (Pos.to_uint (Pos.of_succ_nat w))).
      pose proof (DecimalPos.Unsigned.to_uint_nonnil (Pos.of_succ_nat w)).
      by destruct (Pos.to_uint (Pos.of_succ_nat w)).
    + by rewrite DecimalPos.Unsigned.of_to.
Qed.

(** The format string [output] builds for a column of width [w]. *)
Lemma fmt_string_built (w : nat) (sep : string) :
  py_format "%%-%ds%s" [PInt (Z.of_nat w); PStr sep]
  = Ok ("%-" +:+ dec (Z.of_nat w) +:+ "s" +:+ sep).
Proof.
  cbv -[dec String.append Z.of_nat]. by rewrite append_nil_r.
Qed.

(** Applied to a column, it left-justifies the column to [w] characters
    and appends the separator, provided the separator holds no [%]. *)
Lemma fmt_string_applied (w : nat) (sep column : string) :
  mem "%"%char sep = false →
  py_format ("%-" +:+ dec (Z.of_nat w) +:+ "s" +:+ sep) [PStr column]
  = Ok (pad true (N.of_nat w) column +:+ sep).
Proof.
  intros Hs. destruct (dec_of_nat w) as (d & -> & <-).
  unfold py_format. rewrite !append_cons.
  rewrite (format_go_silent _ _ Start) by reflexivity.
  rewrite (format_go_silent _ _ (Flags true false)) by reflexivity.
  by apply scan_flags.
Qed.

End CellFormat.

(** ** TabularPrinter: the output *)

Section Output.
Local Open Scope nat_scope.
Import Text.

Variable tp : printer.
Hypothesis tp_tidy : tidy tp.
Hypothesis sep_plain : mem "%"%char (separator tp) = false.

Lemma output_column_text (idx : nat) (column : string) (st : stream) :
  idx < columns_seen (_rows tp) →
  output_column tp idx column st =
    (Ok (),
     Stream (written st +:+ (if softspace st then " " else "")
               +:+ cell (separator tp) (_rows tp) idx column)
       (owes_space (cell (separator tp) (_rows tp) idx column))
       (write_clears_softspace st)).
Proof.
  intros H. unfold output_column. destruct tp_tidy as (Hw & _ & _).
  rewrite Hw, list_lookup_fmap, lookup_seq_lt by done.
  rewrite bind_lift. cbn [fmap option_fmap option_map width_value].
  rewrite fmt_string_built, bind_lift.
  by rewrite (fmt_string_applied _ _ _ sep_plain).
Qed.





End Output.

Lemma row_keeps_layout (tp : printer) columns :
  margin (row columns tp).2 = margin tp ∧
  separator (row columns tp).2 = separator tp.
Proof.
  destruct (traverse py_str columns) as [cols|e] eqn:E.
  - by rewrite (row_ok _ _ _ E).
  - by rewrite (row_raises _ _ _ E).
Qed.

Lemma rows_added_keeps_layout (calls : list (list pyval)) (tp : printer) :
  margin (rows_added calls tp) = margin tp ∧
  separator (rows_added calls tp) = separator tp.
Proof.
  revert tp. induction calls as [|columns calls IH]; intros tp; [done |].
  simpl. destruct (IH (row columns tp).2) as [-> ->].
  apply row_keeps_layout.
Qed.




(** ** Inputs at the edge of the statements above *)

(** A transient value that is no Boolean leaves the answer of the
    persistent scope standing. *)
Lemma allocator_unrecognised_transient :
  allocator_of
    (PDict [(Text.codes "persistent",
             PDict [(Text.codes allocation_key, ustr "true")]);
            (Text.codes "transient",
             PDict [(Text.codes allocation_key, ustr "maybe")])])
  = Ok "disabled".
Proof. by vm_compute. Qed.

(** A version text with an empty piece is not a tuple: nothing is cached
    and the next call asks the root endpoint again. *)
Lemma version_unparsable_refetched :
  Version.parse (ustr "1.0.0-SNAPSHOT") = Raise ValueError ∧
  root_fetches
    (sent (after_calls (constant_decoder (sample_root "1.0.0-SNAPSHOT"))
             (constant_server "{}") 2 fresh)) = 2%nat.
Proof. by vm_compute. Qed.

(** A separator is read as part of a format: a [%] in it is the start of
    a conversion that finds no argument left. *)
Lemma output_percent_separator :
  (output (rows_added [[PStr "a"]] (Printer "" "%d" [] 0 0 []))
     (Stream "" false true)).1 = Raise TypeError.
Proof. by vm_compute. Qed.

(** * Further properties *)

(** ** Round trips of the connection *)

Section RoundTrips.

Variable json_loads : string → option pyval.
Variable server : list request_sent → request_sent → response.

Lemma lifted_state {S A B} (m : stateful S A) (f : A → result B) (s : S) :
  ((x ← m; lift (f x)) s).2 = (m s).2.
Proof.
  unfold mbind, stateful_bind, lift. by destruct (m s) as [[x|e] s'].
Qed.



Lemma snoc_neq {A} (l : list A) (x : A) : l ++ [x] ≠ l.
Proof.
  intros H. apply (f_equal length) in H. rewrite length_app in H.
  simpl in H. lia.
Qed.

(** X2: [request] gives a record to [logger.error] in one case only: the
    status is 200 and the body is not empty and does not decode.  The
    record is then the body's [repr] after a fixed prefix.  A status
    other than 200 is not logged. *)
Theorem request_logs_only_malformed method path data c :
  let resp := server (sent c) (wire method path data) in
  let r := request json_loads server method path data c in
  (logged r.2 ≠ logged c ↔
     status resp = 200 ∧ json_loads (body resp) = None ∧ body resp ≠ "") ∧
  (logged r.2 = logged c ∨
   logged r.2 = logged c ++ ["Failed to parse JSON in response: "
                               +:+ repr_str (body resp)]).
Proof.
  intros resp r. unfold r.
  destruct (decide (status resp = 200)) as [E|E].
  - rewrite (request_200 json_loads server method path data c E). fold resp.
    destruct (json_loads (body resp)) as [v|] eqn:J.
    { split; [| by left]. split; [done | by intros (_ & ? & _)]. }
    case_bool_decide as B.
    + assert (body resp = "") as B' by (by destruct (body resp)).
      destruct (json_loads "{}");
        (split; [| by left]); (split; [done | by intros (_ & _ & ?)]).
    + split; [| by right]. split.
      * intros _. split_and!; [done | done |].
        intros Hb. apply B. by rewrite Hb.
      * intros _. apply snoc_neq.
  - rewrite (request_not_200 json_loads server method path data c E).
    split; [| by left]. split; [done | by intros (? & _)].
Qed.

Lemma lifted_raise {S A B} (m : stateful S A) (f : A → result B) s e :
  (m s).1 = Raise e → ((x ← m; lift (f x)) s).1 = Raise e.
Proof. intros H. by rewrite lifted_after, H. Qed.

(** X3: no query catches an exception of its request.  Whatever [get]
    raises, an [HttpError] or the decoder's [ValueError], comes out of
    [allocator_disabled], [get_index_translog_disable_flush],
    [flushing_disabled], [master_node_id], [master] and [indices]
    unchanged, and no answer is made up in its place. *)
Theorem queries_propagate (c : connection) (e : exn) :
  ((get json_loads server "/_cluster/settings" c).1 = Raise e →
   (allocator_disabled json_loads server c).1 = Raise e) ∧
  ((get json_loads server "/_settings" c).1 = Raise e →
   (get_index_translog_disable_flush json_loads server c).1 = Raise e ∧
   (flushing_disabled json_loads server c).1 = Raise e) ∧
  ((get json_loads server "/_cluster/state" c).1 = Raise e →
   (master_node_id json_loads server c).1 = Raise e ∧
   (master json_loads server c).1 = Raise e ∧
   (indices json_loads server c).1 = Raise e).
Proof.
  split_and!.
  - apply lifted_raise.
  - intros H. split; [by apply lifted_raise |].
    unfold flushing_disabled. apply lifted_raise. by apply lifted_raise.
  - intros H. split_and!; [by apply lifted_raise | | by apply lifted_raise].
    unfold master. rewrite bind_stateful.
    assert ((master_node_id json_loads server c).1 = Raise e) as H'
      by (by apply lifted_raise).
    destruct (master_node_id json_loads server c) as [[id|e'] c1];
      simpl in H'; [done | by injection H' as ->].
Qed.

End RoundTrips.

Lemma queries_propagate_witness :
  (allocator_disabled json_literal (λ _ _, Response 503 "") fresh).1
  = Raise (HttpError
      "Expected HTTP 200 - got HTTP 503: GET /_cluster/settings (data: None)").
Proof.
  apply (proj1 (queries_propagate json_literal (λ _ _, Response 503 "")
                  fresh _)).
  reflexivity.
Defined.

(** ** master and my_node_id *)

Section NodeQueries.

Variable json_loads : string → option pyval.
Variable server : list request_sent → request_sent → response.

(** X4: [master] asks for the cluster state twice: the master's
    identifier is read from the first answer and looked up among the
    nodes of the second.  It returns the name found there; when the
    second answer no longer lists that identifier it raises
    [KeyError]. *)
Theorem master_two_states c c1 state1 state2 id (nodes : list (list N * pyval)) :
  get json_loads server "/_cluster/state" c = (Ok state1, c1) →
  getitem state1 "master_node" = Ok (PUnicode id) →
  (get json_loads server "/_cluster/state" c1).1 = Ok state2 →
  getitem state2 "nodes" = Ok (PDict nodes) →
  sent (master json_loads server c).2
  = sent c ++ [Request "GET" "/_cluster/state" None;
               Request "GET" "/_cluster/state" None] ∧
  (∀ node, dict_lookup id nodes = Some node →
     (master json_loads server c).1 = getitem node "name") ∧
  (dict_lookup id nodes = None →
     (master json_loads server c).1 = Raise KeyError).
Proof.
  intros G1 M G2 N.
  assert (master_node_id json_loads server c = (Ok (PUnicode id), c1)) as Hid.
  { unfold master_node_id. rewrite bind_stateful, G1. unfold lift.
    by rewrite M. }
  unfold master. rewrite bind_stateful, Hid.
  split_and!.
  - rewrite lifted_state.
    destruct (request_wire json_loads server "GET" "/_cluster/state" PNone c)
      as [_ Hs].
    destruct (request_wire json_loads server "GET" "/_cluster/state" PNone c1)
      as [_ Hs1].
    unfold get in *. rewrite Hs1. rewrite G1 in Hs. simpl in Hs.
    by rewrite Hs, <- app_assoc.
  - intros node Hn. rewrite lifted_after, G2, N. run.
    unfold py_getitem. cbn [py_hash_key]. run. by rewrite Hn.
  - intros Hn. rewrite lifted_after, G2, N. run.
    unfold py_getitem. cbn [py_hash_key]. run. by rewrite Hn.
Qed.

(** X5: with the version known, [my_node_id] returns the first key of
    the [nodes] mapping of the answer, and raises [IndexError] when that
    mapping is empty. *)
Theorem my_node_id_first_key c t info :
  es_version c = Some t →
  (get json_loads server (local_node_endpoint t) c).1 = Ok info →
  (∀ k v rest, getitem info "nodes" = Ok (PDict ((k, v) :: rest)) →
     (my_node_id json_loads server c).1 = Ok (PUnicode k)) ∧
  (getitem info "nodes" = Ok (PDict []) →
     (my_node_id json_loads server c).1 = Raise IndexError).
Proof.
  intros E G.
  assert ((my_node_id json_loads server c).1
          = nodes ← getitem info "nodes"; first_key nodes) as ->.
  { unfold my_node_id. rewrite bind_stateful, (version_cached _ _ c t E).
    rewrite bind_stateful.
    assert ((if Version.tuple_ge t [1; 0; 0]
             then get json_loads server "/_nodes/_local"
             else get json_loads server "/_cluster/nodes/_local")
            = get json_loads server (local_node_endpoint t)) as ->.
    { unfold local_node_endpoint. by destruct (Version.tuple_ge t [1; 0; 0]). }
    destruct (get json_loads server (local_node_endpoint t) c)
      as [[info'|] c2]; simpl in G; [| done].
    injection G as ->. rewrite bind_lift.
    unfold lift. by destruct (getitem info "nodes"). }
  split.
  - intros k v rest ->. by run.
  - intros ->. by run.
Qed.

End NodeQueries.

Lemma master_two_states_witness :
  (master (constant_decoder (sample_cluster_state "n1" "alpha"))
     (constant_server "{}") fresh).1 = Ok (ustr "alpha").
Proof.
  destruct (master_two_states
              (constant_decoder (sample_cluster_state "n1" "alpha"))
              (constant_server "{}") fresh
              (Connection None [Request "GET" "/_cluster/state" None] [])
              (sample_cluster_state "n1" "alpha")
              (sample_cluster_state "n1" "alpha") (Text.codes "n1")
              [(Text.codes "n1", PDict [(Text.codes "name", ustr "alpha")])]
              eq_refl eq_refl eq_refl eq_refl) as (_ & H & _).
  refine (eq_trans (H _ eq_refl) _). reflexivity.
Defined.

Lemma my_node_id_first_key_witness :
  (my_node_id (constant_decoder
                 (PDict [(Text.codes "nodes",
                          PDict [(Text.codes "n7", PDict [])])]))
     (constant_server "{}") (Connection (Some [1; 4; 2]) [] [])).1
  = Ok (ustr "n7").
Proof.
  destruct (my_node_id_first_key
              (constant_decoder
                 (PDict [(Text.codes "nodes",
                          PDict [(Text.codes "n7", PDict [])])]))
              (constant_server "{}") (Connection (Some [1; 4; 2]) [] [])
              [1; 4; 2]
              (PDict [(Text.codes "nodes",
                       PDict [(Text.codes "n7", PDict [])])])
              eq_refl eq_refl) as [H _].
  apply (H (Text.codes "n7") (PDict []) []). reflexivity.
Defined.

(** ** booleanise and the settings queries *)

(** X6: what [booleanise] returns is the value it was given or a
    Boolean, and never a value that still reads as a Boolean: if the
    result renders, ignoring case, as ["true"] or ["false"], it is the
    Boolean itself. *)
Theorem booleanise_leaves_no_text (x v : pyval) :
  booleanise x = Ok v →
  (v = x ∨ ∃ b, v = PBool b) ∧
  (∀ s, py_str v = Ok s → Text.lower s = "true" → v = PBool true) ∧
  (∀ s, py_str v = Ok s → Text.lower s = "false" → v = PBool false).
Proof.
  intros H. destruct (py_str x) as [s|e] eqn:E.
  2:{ unfold booleanise in H. by rewrite E in H. }
  rewrite (booleanise_rendered x s E) in H.
  repeat case_bool_decide; injection H as <-.
  - split_and!; [right; by exists true | done |].
    intros s' [= <-] Hs. by vm_compute in Hs.
  - split_and!; [right; by exists false | | done].
    intros s' [= <-] Hs. by vm_compute in Hs.
  - split_and!; [by left | |]; intros s' Hs' Hl; congruence.
Qed.

Lemma booleanise_leaves_no_text_witness :
  booleanise (ustr "TRUE") = Ok (PBool true) ∧
  (PBool true = ustr "TRUE" ∨ ∃ b, PBool true = PBool b).
Proof.
  split; [reflexivity |].
  apply (booleanise_leaves_no_text (ustr "TRUE") (PBool true)). reflexivity.
Defined.

(** X7: a scope of [/_cluster/settings] has to be there.  Without the
    persistent scope [allocator_disabled] raises [KeyError]; without the
    transient one it raises [KeyError] too, whatever the persistent
    scope said. *)
Theorem allocator_needs_both_scopes (d : list (list N * pyval)) :
  (dict_lookup (Text.codes "persistent") d = None →
   allocator_of (PDict d) = Raise KeyError) ∧
  (∀ p state,
     dict_lookup (Text.codes "persistent") d = Some (PDict p) →
     allocator_scope (PDict d) "unknown" "persistent" = Ok state →
     dict_lookup (Text.codes "transient") d = None →
     allocator_of (PDict d) = Raise KeyError).
Proof.
  split.
  - intros H. unfold allocator_of, foldM, allocator_scope.
    rewrite (getitem_dict d "persistent") by reflexivity. by rewrite H.
  - intros p state Hp Hs Ht. unfold allocator_of, foldM. rewrite Hs. run.
    unfold allocator_scope.
    rewrite (getitem_dict d "transient") by reflexivity. by rewrite Ht.
Qed.

Lemma allocator_needs_both_scopes_witness :
  allocator_of
    (PDict [(Text.codes "persistent",
             PDict [(Text.codes allocation_key, PBool true)])])
  = Raise KeyError.
Proof.
  apply (proj2 (allocator_needs_both_scopes _)
           [(Text.codes allocation_key, PBool true)] "disabled");
    reflexivity.
Defined.

Lemma lower_of_bool (b : bool) (s : string) :
  py_str (PBool b) = Ok s →
  Text.lower s = if b then "true" else "false".
Proof. destruct b; by intros [= <-]. Qed.

(** X8: what a scope's value does to the answer of [allocator_disabled].
    The value is compared with [==] after normalisation, so it switches
    the answer to "disabled" exactly when it reads, ignoring case, as
    ["true"] or is the number 1, to "enabled" exactly when it reads as
    ["false"] or is the number 0, and leaves the answer alone
    otherwise. *)
Theorem allocator_scope_switch settings state i d x s :
  getitem settings i = Ok (PDict d) →
  dict_lookup (Text.codes allocation_key) d = Some x →
  py_str x = Ok s →
  allocator_scope settings state i =
    Ok (if bool_decide (Text.lower s = "true") || is_number x 1
        then "disabled"
        else if bool_decide (Text.lower s = "false") || is_number x 0
        then "enabled" else state).
Proof.
  intros G L E. rewrite (allocator_scope_dict _ _ _ _ G), L.
  rewrite (booleanise_rendered x s E).
  case_bool_decide as T; [by run |].
  case_bool_decide as F.
  - run. cbn [py_eq_bool orb].
    rewrite bool_decide_eq_false_2 by done.
    rewrite bool_decide_eq_true_2 by done.
    destruct x as [| |z|z| | | |]; cbn [is_number]; try done;
      case_bool_decide as Z; try done; subst z;
      injection E as <-; by vm_compute in F.
  - run. cbn [orb].
    destruct x as [|b|z|z| | | |]; cbn [py_eq_bool is_number]; try done.
    pose proof (lower_of_bool b s E) as Hb. by destruct b.
Qed.

Lemma allocator_scope_switch_witness :
  allocator_scope
    (PDict [(Text.codes "transient",
             PDict [(Text.codes allocation_key, PInt 1)])])
    "unknown" "transient"
  = Ok "disabled".
Proof.
  refine (eq_trans
            (allocator_scope_switch
               (PDict [(Text.codes "transient",
                        PDict [(Text.codes allocation_key, PInt 1)])])
               "unknown" "transient"
               [(Text.codes allocation_key, PInt 1)] (PInt 1) "1"
               eq_refl eq_refl eq_refl) _).
  reflexivity.
Defined.

Lemma traverse_raises {A B} (f : A → result B) (l : list A) (e : exn) a :
  a ∈ l → f a = Raise e →
  (∀ a' e', a' ∈ l → f a' = Raise e' → e' = e) →
  traverse f l = Raise e.
Proof.
  induction l as [|a0 l IH]; [by intros ?%elem_of_nil |].
  intros Ha Hf Hall. simpl.
  destruct (f a0) as [b|e0] eqn:E0.
  - run. apply elem_of_cons in Ha as [-> | Ha]; [congruence |].
    rewrite IH; [done | done | done |].
    intros a' e' Ha'. apply Hall. by right.
  - run. f_equal. apply (Hall a0); [by left | done].
Qed.

(** X9: the values of the index map go into a [set], so they have to be
    hashable: when the flush setting of some index is a list or a
    mapping, [flushing_disabled] raises [TypeError] instead of
    answering. *)
Theorem flushing_unhashable (disabled : gmap hkey pyval) i v :
  disabled !! i = Some v →
  (∃ l, v = PList l) ∨ (∃ d, v = PDict d) →
  flushing_of disabled = Raise TypeError.
Proof.
  intros Hi Hv. unfold flushing_of, value_set.
  rewrite (traverse_raises py_hash_key _ TypeError v); [done | | |].
  - apply list_elem_of_fmap. exists (i, v). split; [done |].
    by apply elem_of_map_to_list.
  - by destruct Hv as [[l ->] | [d ->]].
  - intros a' e' _. by destruct a'; intros [= <-].
Qed.

Lemma flushing_unhashable_witness :
  flushing_of {[ KText (Text.codes "a") := PList [] ]} = Raise TypeError.
Proof.
  apply (flushing_unhashable _ (KText (Text.codes "a")) (PList [])).
  - reflexivity.
  - left. by exists [].
Defined.

(** ** The index map *)

Lemma dict_lookup_None (k : list N) (d : list (list N * pyval)) :
  dict_lookup k d = None ↔ k ∉ d.*1.
Proof.
  induction d as [|[k' v] d IH]; simpl.
  - split; [intros _; apply not_elem_of_nil | done].
  - rewrite not_elem_of_cons. case_bool_decide as E.
    + split; [done | by intros [? _]].
    + rewrite IH. split; [by intros ? | by intros [_ ?]].
Qed.

Lemma iterate_dict d : iterate (PDict d) = Ok (PUnicode <$> d.*1).
Proof.
  unfold iterate. f_equal. induction d as [|[k v] d IH]; [done |].
  rewrite !fmap_cons. by f_equal.
Qed.

Lemma translog_entry_dict d (acc : gmap hkey pyval) (k : list N) :
  translog_entry (PDict d) acc (PUnicode k) =
    match dict_lookup k d with
    | None => Raise KeyError
    | Some entry => b ← flush_setting entry; Ok (<[KText k := b]> acc)
    end.
Proof.
  unfold translog_entry, py_getitem. cbn [py_hash_key]. run.
  destruct (dict_lookup k d) as [entry|]; run; [| done].
  unfold flush_setting.
  destruct (getitem entry "settings") as [st|]; run; [| done].
  destruct (dict_get st _ _) as [v|]; run; [| done].
  by destruct (booleanise v).
Qed.

Lemma foldM_translog d (ks : list (list N)) (acc m : gmap hkey pyval) :
  foldM (translog_entry (PDict d)) acc (PUnicode <$> ks) = Ok m →
  (∀ k, k ∈ ks →
     ∃ entry b, dict_lookup k d = Some entry ∧ flush_setting entry = Ok b ∧
                m !! KText k = Some b) ∧
  (∀ h, (∀ k, k ∈ ks → h ≠ KText k) → m !! h = acc !! h).
Proof.
  revert acc. induction ks as [|k0 ks IH]; intros acc H.
  - injection H as <-. split; [by intros k ?%elem_of_nil | done].
  - rewrite fmap_cons in H. cbn [foldM] in H.
    rewrite translog_entry_dict in H.
    destruct (dict_lookup k0 d) as [entry|] eqn:L; [| done].
    destruct (flush_setting entry) as [b|] eqn:F; [| done].
    revert H. run. intros H. destruct (IH _ H) as [IH1 IH2]. split.
    + intros k Hk. destruct (decide (k ∈ ks)) as [Hin|Hout]; [by apply IH1 |].
      apply elem_of_cons in Hk as [-> | ?]; [| done].
      exists entry, b. split_and!; [done | done |].
      rewrite IH2; [apply lookup_insert_eq |].
      intros k Hk [= ->]. done.
    + intros h Hh. rewrite IH2.
      * apply lookup_insert_ne. intros <-. by apply (Hh k0); [left |].
      * intros k Hk. apply Hh. by right.
Qed.

Section IndexMap.

Variable json_loads : string → option pyval.
Variable server : list request_sent → request_sent → response.

Lemma index_map_content_aux c d (disabled : gmap hkey pyval) :
  (get json_loads server "/_settings" c).1 = Ok (PDict d) →
  (get_index_translog_disable_flush json_loads server c).1 = Ok disabled →
  ∀ k entry, dict_lookup k d = Some entry →
    ∃ b, flush_setting entry = Ok b ∧ disabled !! KText k = Some b.
Proof.
  intros G H. unfold get_index_translog_disable_flush in H.
  rewrite lifted_after, G in H. unfold index_translog_of in H.
  rewrite iterate_dict in H. revert H. run. intros H.
  destruct (foldM_translog _ _ _ _ H) as [H1 _].
  intros k entry L.
  destruct (H1 k) as (entry' & b & L' & F & Hm).
  - apply dec_stable. rewrite <- dict_lookup_None. by rewrite L.
  - exists b. by rewrite L in L'; injection L' as <-.
Qed.

(** X10: what [get_index_translog_disable_flush] returns for a
    [/_settings] answer that is a mapping.  Its keys are exactly the
    index names of the answer, and each index is mapped to the
    normalised value of the flush knob in its [settings], or to the
    marker ["unknown"] when the knob is not set. *)
Theorem index_map_content c d (disabled : gmap hkey pyval) :
  (get json_loads server "/_settings" c).1 = Ok (PDict d) →
  (get_index_translog_disable_flush json_loads server c).1 = Ok disabled →
  (∀ k entry, dict_lookup k d = Some entry →
     ∃ b, flush_setting entry = Ok b ∧ disabled !! KText k = Some b) ∧
  (∀ h, is_Some (disabled !! h) ↔
        ∃ k, h = KText k ∧ is_Some (dict_lookup k d)) ∧
  (∀ entry st,
     getitem entry "settings" = Ok (PDict st) →
     dict_lookup (Text.codes "index.translog.disable_flush") st = None →
     flush_setting entry = Ok (PStr "unknown")).
Proof.
  intros G H. unfold get_index_translog_disable_flush in H.
  rewrite lifted_after, G in H. unfold index_translog_of in H.
  rewrite iterate_dict in H. revert H. run. intros H.
  destruct (foldM_translog _ _ _ _ H) as [H1 H2]. split_and!.
  - intros k entry L.
    destruct (H1 k) as (entry' & b & L' & F & Hm).
    + apply dec_stable. rewrite <- dict_lookup_None. by rewrite L.
    + exists b. by rewrite L in L'; injection L' as <-.
  - intros h. split.
    + intros Hh.
      assert (∀ h', (∀ k, h' ≠ KText k) → ¬ is_Some (disabled !! h')) as Hn.
      { intros h' N' Hs. rewrite H2 in Hs; [by destruct Hs |].
        intros k _. apply N'. }
      destruct h as [| z | k | s];
        [by destruct (Hn KNone) | by destruct (Hn (KNum z)) | |
         by destruct (Hn (KBytes s))].
      exists k. split; [done |].
      destruct (dict_lookup k d) eqn:L; [done |].
      apply dict_lookup_None in L.
      rewrite H2 in Hh; [by destruct Hh |].
      intros k' Hk' [= ->]. done.
    + intros (k & -> & Hk).
      destruct Hk as [entry L]. destruct (H1 k) as (? & b & _ & _ & ->);
        [| done].
      apply dec_stable. rewrite <- dict_lookup_None. by rewrite L.
  - intros entry st Hs L. unfold flush_setting. rewrite Hs. run.
    unfold dict_get. by rewrite L.
Qed.

(** X11: an index whose entry has no [settings] makes the whole call
    raise; the indices that were fine are not returned. *)
Theorem index_entry_needs_settings c d k e :
  (get json_loads server "/_settings" c).1 = Ok (PDict d) →
  dict_lookup k d = Some (PDict e) →
  dict_lookup (Text.codes "settings") e = None →
  ∃ err,
    (get_index_translog_disable_flush json_loads server c).1 = Raise err.
Proof.
  intros G L S.
  destruct (get_index_translog_disable_flush json_loads server c).1
    as [disabled|err] eqn:H; [| by exists err].
  destruct (index_map_content_aux c d disabled G H k (PDict e) L)
    as (b & F & _).
  unfold flush_setting in F. rewrite getitem_dict in F by reflexivity.
  by rewrite S in F.
Qed.

End IndexMap.

Lemma index_map_content_witness :
  ∃ b, flush_setting (PDict [(Text.codes "settings", PDict [])]) = Ok b ∧
       index_a_unknown !! KText (Text.codes "a") = Some b.
Proof.
  destruct (index_map_content (constant_decoder sample_index_settings)
              (constant_server "{}") fresh
              [(Text.codes "a", PDict [(Text.codes "settings", PDict [])])]
              index_a_unknown eq_refl eq_refl) as (H & _ & _).
  exact (H (Text.codes "a") _ eq_refl).
Defined.

Lemma index_entry_needs_settings_witness :
  ∃ err,
    (get_index_translog_disable_flush
       (constant_decoder (PDict [(Text.codes "a", PDict [])]))
       (constant_server "{}") fresh).1 = Raise err.
Proof.
  apply (index_entry_needs_settings
           (constant_decoder (PDict [(Text.codes "a", PDict [])]))
           (constant_server "{}") fresh
           [(Text.codes "a", PDict [])] (Text.codes "a") []);
    reflexivity.
Defined.

(** ** The printer's rows *)

Section ZipTuples.

Context {A : Type} (none : A).

(** X12: [nontruncating_zip] for any number of sequences.  It returns as
    many tuples as the longest sequence has items (none at all when it
    is given no sequence); each tuple has one item per sequence, the
    item of that index where the sequence has one and the padding where
    it is too short. *)
Theorem nontruncating_zip_tuples (seqs : list (list A)) :
  ∃ tups,
    nontruncating_zip none seqs = Some tups ∧
    length tups = longest seqs ∧
    (∀ idx tup, tups !! idx = Some tup →
       length tup = length seqs ∧
       ∀ j sq, seqs !! j = Some sq →
         tup !! j = Some (default none (sq !! idx))) ∧
    (∀ sq, sq ∈ seqs → (length sq ≤ length tups)%nat).
Proof.
  rewrite nontruncating_zip_total. eexists. split; [done |].
  assert (length (map (zip_column none seqs) (seq 0 (longest seqs)))
          = longest seqs) as Hl by (by rewrite length_map, length_seq).
  split_and!; [done | |].
  - intros idx tup Ht.
    apply list_lookup_fmap_Some in Ht as (i & -> & Hi).
    apply lookup_seq in Hi as [-> _]. unfold zip_column. split.
    + by rewrite length_map.
    + intros j sq Hj. change (map ?f ?l) with (f <$> l).
      by rewrite list_lookup_fmap, Hj.
  - intros sq Hsq. rewrite Hl. clear Hl.
    induction seqs as [|s0 ss IH]; [by apply elem_of_nil in Hsq |].
    apply elem_of_cons in Hsq as [-> | Hsq]; simpl; [lia |].
    specialize (IH Hsq). lia.
Qed.

End ZipTuples.

(** X13: the printer keeps the rows in the order of the calls, as the
    texts of their columns, and counts them: a call one of whose columns
    does not render leaves neither a row nor a count, and [row_count] is
    the number of rows kept, not the number of calls. *)
Theorem rows_kept_in_order (calls : list (list pyval)) (tp : printer) :
  _rows (rows_added calls tp) = _rows tp ++ rendered calls ∧
  row_count (rows_added calls tp)
  = (row_count tp + length (rendered calls))%nat ∧
  (length (rendered calls) ≤ length calls)%nat.
Proof.
  revert tp. induction calls as [|columns calls IH]; intros tp.
  - simpl. split_and!; [by rewrite app_nil_r | unfold row_count; lia | done].
  - change (rows_added (columns :: calls) tp)
      with (rows_added calls (row columns tp).2).
    destruct (IH (row columns tp).2) as (IH1 & IH2 & IH3).
    rewrite IH1, IH2. unfold rendered in *. cbn [omap list_omap].
    destruct (traverse py_str columns) as [cols|e] eqn:E.
    + rewrite (row_ok _ _ _ E). unfold row_count. simpl.
      split_and!; [by rewrite <- app_assoc | lia | lia].
    + rewrite (row_raises _ _ _ E). simpl. split_and!; [done | done | lia].
Qed.

Lemma length_repeat (c : ascii) (n : nat) :
  String.length (Text.repeat c n) = n.
Proof. induction n as [|n IH]; simpl; [done | by rewrite IH]. Qed.

Lemma length_append (a b : string) :
  String.length (a +:+ b) = (String.length a + String.length b)%nat.
Proof.
  induction a as [|c a IH]; [done |].
  rewrite append_cons. simpl. by rewrite IH.
Qed.

(** X14: the columns line up.  For a separator without [%], the item
    [output] prints for a column is the column's text, then blanks, then
    the separator, and its length is the final width of the column plus
    the length of the separator, the same for every row that has the
    column. *)
Theorem columns_aligned (m sep : string) (calls : list (list pyval))
    (r : list string) (i : nat) (column : string) (st : stream) :
  Text.mem "%"%char sep = false →
  let tp := rows_added calls (Printer m sep [] 0 0 []) in
  r ∈ _rows tp → r !! i = Some column →
  ∃ item,
    output_column tp i column st =
      (Ok (),
       Stream (written st +:+ (if softspace st then " " else "") +:+ item)
         (owes_space item) (write_clears_softspace st)) ∧
    item = column
             +:+ Text.repeat " "%char
                   (final_width (_rows tp) i - String.length column)
             +:+ sep ∧
    String.length item = (final_width (_rows tp) i + String.length sep)%nat.
Proof.
  intros Hs tp Hr Hi.
  pose proof (rows_added_tidy calls _ (new_tidy m sep)) as T. fold tp in T.
  destruct (rows_added_keeps_layout calls (Printer m sep [] 0 0 []))
    as [_ Hsep].
  fold tp in Hsep. simpl in Hsep.
  destruct (tidy_width tp r i column T Hr Hi) as (Hw & Hle & _).
  exists (cell sep (_rows tp) i column). split_and!.
  - rewrite <- Hsep. apply output_column_text; [done | by rewrite Hsep |].
    destruct T as (Tw & _). rewrite Tw in Hw.
    apply list_lookup_fmap_Some in Hw as (j & _ & Hj).
    by apply lookup_seq in Hj as [-> ?].
  - unfold cell, Format.pad. rewrite Nat2N.id. by rewrite append_assoc.
  - unfold cell, Format.pad. rewrite Nat2N.id.
    rewrite !length_append, length_repeat. lia.
Qed.

Lemma columns_aligned_witness :
  ∃ item,
    output_column (rows_added sample_calls TabularPrinter.new) 0 "bob"
      (Stream "" false true)
    = (Ok (), Stream item (owes_space item) true) ∧
    String.length item = 7%nat.
Proof.
  destruct (columns_aligned DEFAULT_MARGIN DEFAULT_SEPARATOR sample_calls
              ["bob"] 0 "bob" (Stream "" false true) eq_refl)
    as (item & H1 & H2 & H3).
  - right. left.
  - reflexivity.
  - exists item. split; [exact H1 | exact H3].
Defined.

(** ** The version that cannot be read *)

Section VersionFailure.

Variable json_loads : string → option pyval.
Variable server : list request_sent → request_sent → response.

(** X15: when the version text of the root answer is not a tuple of
    numbers, [my_node_id] raises what the conversion raised, after the
    one request to the root endpoint: it asks no node endpoint, and it
    caches nothing. *)
Theorem my_node_id_version_failure c root v number e :
  es_version c = None →
  (get json_loads server "/" c).1 = Ok root →
  getitem root "version" = Ok v →
  getitem v "number" = Ok number →
  Version.parse number = Raise e →
  let r := my_node_id json_loads server c in
  r.1 = Raise e ∧
  es_version r.2 = None ∧
  sent r.2 = sent c ++ [Request "GET" "/" None].
Proof.
  intros E G H1 H2 H3 r.
  assert ((version json_loads server c).1 = Raise e) as Hv.
  { unfold version. rewrite bind_stateful. unfold inspect.
    rewrite E, bind_stateful.
    destruct (get json_loads server "/" c) as [[root'|] c1]; [| done].
    injection G as ->.
    by rewrite bind_lift, H1, bind_lift, H2, bind_lift, H3. }
  destruct (version_uncached json_loads server c E) as [Hs Hr].
  rewrite Hv in Hr. unfold r. split_and!.
  - unfold my_node_id. rewrite bind_stateful.
    destruct (version json_loads server c) as [[t|e'] c1]; simpl in Hv;
      [done | by injection Hv as ->].
  - by rewrite my_node_id_state, Hv.
  - by rewrite my_node_id_state, Hv.
Qed.

End VersionFailure.

Lemma my_node_id_version_failure_witness :
  let r := my_node_id (constant_decoder (sample_root "1.0.0-SNAPSHOT"))
             (constant_server "{}") fresh in
  r.1 = Raise ValueError ∧
  es_version r.2 = None ∧
  sent r.2 = [Request "GET" "/" None].
Proof.
  apply (my_node_id_version_failure
           (constant_decoder (sample_root "1.0.0-SNAPSHOT"))
           (constant_server "{}") fresh
           (sample_root "1.0.0-SNAPSHOT")
           (PDict [(Text.codes "number", ustr "1.0.0-SNAPSHOT")])
           (ustr "1.0.0-SNAPSHOT") ValueError); reflexivity.
Defined.

(** ** Version texts *)

Section VersionTexts.
Import Version.

(** X16: what the conversion of a version text does, for any text.  The
    text is cut at its dots and hyphens after everything but digits,
    dots and hyphens is dropped; if every piece holds a digit the result
    is a tuple with one number, not negative, per piece; if some piece
    is empty (a leading, trailing or doubled separator, or a text
    without digits) it raises [ValueError], and it raises nothing
    else. *)
Theorem version_parse_outcome (u : list N) :
  let pieces := split (sanitize u) in
  pieces ≠ [] ∧
  (Forall (λ p, p ≠ []) pieces →
   ∃ t, parse (PUnicode u) = Ok t ∧ length t = length pieces ∧
        Forall (λ z, 0 ≤ z) t) ∧
  (Exists (λ p, p = []) pieces → parse (PUnicode u) = Raise ValueError) ∧
  (∀ e, parse (PUnicode u) = Raise e → e = ValueError).
Proof.
  intros pieces.
  destruct (traverse_int_of pieces (sanitized_pieces u)) as [H1 H2].
  split_and!; [apply split_pieces | done | done |].
  intros e He.
  destruct (decide (Forall (λ p, p ≠ []) pieces)) as [Hall | Hex].
  - destruct (H1 Hall) as (t & Ht & _).
    change (parse (PUnicode u)) with (traverse int_of pieces) in He.
    congruence.
  - apply not_Forall_Exists in Hex; [| apply _].
    assert (Exists (λ p, p = []) pieces) as Hex'.
    { eapply Exists_impl; [exact Hex |]. intros p Hp. simpl in Hp.
      by destruct p; [| destruct Hp]. }
    change (parse (PUnicode u)) with (traverse int_of pieces) in He.
    rewrite (H2 Hex') in He. by injection He as <-.
Qed.

End VersionTexts.

Lemma version_parse_outcome_witness :
  ∃ t, Version.parse (ustr "2.4.1") = Ok t ∧ length t = 3%nat.
Proof.
  destruct (version_parse_outcome (Text.codes "2.4.1")) as (_ & H & _).
  destruct H as (t & Ht & Hl & _).
  - repeat constructor; done.
  - exists t. split; [exact Ht | exact Hl].
Defined.

Section VersionRoundTrip.
Import Version.

(** X17: a version printed as numbers separated by dots is read back as
    those numbers: for every non-empty tuple of natural numbers, the
    conversion of its dotted text gives the tuple. *)
Theorem version_round_trip (ns : list N) :
  ns ≠ [] → parse (ustr (dotted ns)) = Ok (map Z.of_N ns).
Proof.
  destruct ns as [|n ns]; [done |]. intros _.
  change (parse (ustr (dotted (n :: ns))))
    with (traverse int_of (split (sanitize (Text.codes (dotted (n :: ns)))))).
  rewrite dotted_pieces. generalize (n :: ns). clear n ns.
  intros l. induction l as [|n l IH]; [done |].
  cbn [map traverse]. destruct (dec_read_back n) as [_ ->].
  rewrite IH. by run.
Qed.

End VersionRoundTrip.

Lemma version_round_trip_witness :
  Version.parse (ustr (dotted [0; 90; 13]%N)) = Ok [0; 90; 13].
Proof. apply (version_round_trip [0; 90; 13]%N). done. Defined.
